(** * Rigol DP832A control library: a shallow embedding of [rigol.py]

    The Python class [RigolDP832A] talks to a bench power supply through a
    character-device file.  Every method is embedded as a function in a
    state-and-exception monad over

    - the Python object ([self.device], [self.idn]),
    - the operating system seen through [os.open], [os.write], [time.sleep],
      [os.read] and [os.close]: a history of the calls made so far, the table
      of open descriptors, and an arbitrary oracle that decides what each
      call returns, and
    - a ghost log of the [command] / [query] invocations.

    Python text is a list of Unicode code points, [bytes] a list of bytes.
    The builtins the class relies on ([str.encode], [bytes.decode],
    [str.strip], [in], [float]) are embedded after CPython's behaviour. *)

From Stdlib Require Import List ZArith NArith Bool String Ascii Lia.
From Stdlib.Strings Require Import Byte.
From Stdlib Require Import DecimalString.
Import ListNotations.

Set Implicit Arguments.

(** ** Python text and bytes *)

(** A Python [str]: a sequence of Unicode code points. *)
Definition str := list N.

(** A Python [bytes] object. *)
Definition bytes := list byte.

(** An ASCII literal of the source, as a [str]. *)
Definition lit (s : string) : str :=
  map N_of_ascii (list_ascii_of_string s).

Definition N_list_eqb : list N -> list N -> bool :=
  fix go (a b : list N) : bool :=
    match a, b with
    | [], [] => true
    | x :: a', y :: b' => N.eqb x y && go a' b'
    | _, _ => false
    end.

(** [a == b] on text. *)
Definition str_eqb (a b : str) : bool := N_list_eqb a b.

(** [s.startswith(p)]. *)
Fixpoint starts_with (p s : str) : bool :=
  match p, s with
  | [], _ => true
  | x :: p', y :: s' => N.eqb x y && starts_with p' s'
  | _ :: _, [] => false
  end.

(** [needle in hay]: [needle] occurs as a contiguous substring of [hay]. *)
Fixpoint contains (needle hay : str) : bool :=
  starts_with needle hay ||
  match hay with
  | [] => false
  | _ :: hay' => contains needle hay'
  end.

(** The one-character text ['\n']. *)
Definition LF : str := [10%N].

(** [str(n)] for a Python [int], as an f-string renders [{channel}]. *)
Definition str_of_int (n : Z) : str :=
  lit (NilZero.string_of_int (Z.to_int n)).

(** *** UTF-8 *)

Definition byte_of_N (n : N) : byte :=
  match Byte.of_N n with
  | Some b => b
  | None => x00
  end.

(** One code point of [str.encode()] (UTF-8, strict): surrogates are
    rejected with [UnicodeEncodeError], modelled as [None]. *)
Definition utf8_encode_char (c : N) : option bytes :=
  (if c <? 0x80 then Some [byte_of_N c]
   else if c <? 0x800 then
     Some [byte_of_N (0xC0 + c / 0x40); byte_of_N (0x80 + c mod 0x40)]
   else if c <? 0x10000 then
     if (0xD800 <=? c) && (c <=? 0xDFFF) then None
     else Some [byte_of_N (0xE0 + c / 0x1000);
                byte_of_N (0x80 + (c / 0x40) mod 0x40);
                byte_of_N (0x80 + c mod 0x40)]
   else if c <? 0x110000 then
     Some [byte_of_N (0xF0 + c / 0x40000);
           byte_of_N (0x80 + (c / 0x1000) mod 0x40);
           byte_of_N (0x80 + (c / 0x40) mod 0x40);
           byte_of_N (0x80 + c mod 0x40)]
   else None)%N.

(** [s.encode()]. *)
Fixpoint encode (s : str) : option bytes :=
  match s with
  | [] => Some []
  | c :: s' =>
      match utf8_encode_char c, encode s' with
      | Some b, Some bs => Some (b ++ bs)
      | _, _ => None
      end
  end.

Definition in_range (lo hi b : N) : bool := ((lo <=? b) && (b <=? hi))%N.

(** Payload of a continuation byte. *)
Definition cont (b : N) : N := (b mod 0x40)%N.

(** [bs.decode('utf-8')], strict: the well-formed byte sequences of the
    Unicode standard (no overlong forms, no surrogates, nothing above
    U+10FFFF, no truncated sequence); anything else is
    [UnicodeDecodeError], modelled as [None]. *)
Fixpoint decode (bs : bytes) : option str :=
  match bs with
  | [] => Some []
  | c0 :: r0 =>
      let b0 := Byte.to_N c0 in
      if (b0 <? 0x80)%N then option_map (cons b0) (decode r0)
      else
        match r0 with
        | [] => None
        | c1 :: r1 =>
            let b1 := Byte.to_N c1 in
            if in_range 0xC2 0xDF b0 then
              if in_range 0x80 0xBF b1
              then option_map (cons ((b0 - 0xC0) * 0x40 + cont b1)%N) (decode r1)
              else None
            else
              match r1 with
              | [] => None
              | c2 :: r2 =>
                  let b2 := Byte.to_N c2 in
                  if in_range 0xE0 0xEF b0 then
                    if (if (b0 =? 0xE0)%N then in_range 0xA0 0xBF b1
                        else if (b0 =? 0xED)%N then in_range 0x80 0x9F b1
                        else in_range 0x80 0xBF b1)
                       && in_range 0x80 0xBF b2
                    then option_map
                           (cons ((b0 - 0xE0) * 0x1000 + cont b1 * 0x40 + cont b2)%N)
                           (decode r2)
                    else None
                  else
                    match r2 with
                    | [] => None
                    | c3 :: r3 =>
                        let b3 := Byte.to_N c3 in
                        if in_range 0xF0 0xF4 b0 then
                          if (if (b0 =? 0xF0)%N then in_range 0x90 0xBF b1
                              else if (b0 =? 0xF4)%N then in_range 0x80 0x8F b1
                              else in_range 0x80 0xBF b1)
                             && in_range 0x80 0xBF b2 && in_range 0x80 0xBF b3
                          then option_map
                                 (cons ((b0 - 0xF0) * 0x40000 + cont b1 * 0x1000
                                        + cont b2 * 0x40 + cont b3)%N)
                                 (decode r3)
                          else None
                        else None
                    end
              end
        end
  end.

(** *** Whitespace *)

(** [str.isspace] on one code point ([Py_UNICODE_ISSPACE]). *)
Definition isspace (c : N) : bool :=
  (in_range 0x09 0x0D c || in_range 0x1C 0x20 c
   || (c =? 0x85) || (c =? 0xA0) || (c =? 0x1680)
   || in_range 0x2000 0x200A c || (c =? 0x2028) || (c =? 0x2029)
   || (c =? 0x202F) || (c =? 0x205F) || (c =? 0x3000))%N.

Definition drop_while (p : N -> bool) : list N -> list N :=
  fix go (s : list N) : list N :=
    match s with
    | [] => []
    | c :: s' => if p c then go s' else s
    end.

(** [s.lstrip()], [s.rstrip()], [s.strip()]. *)
Definition lstrip (s : str) : str := drop_while isspace s.
Definition rstrip (s : str) : str := rev (drop_while isspace (rev s)).
Definition strip (s : str) : str := rstrip (lstrip s).

(** ** The [float] builtin on text *)

(** A decimal digit value, as the Unicode database gives it
    ([Py_UNICODE_TODECIMAL]). *)
Inductive digit := D0 | D1 | D2 | D3 | D4 | D5 | D6 | D7 | D8 | D9.

Definition digit_value (d : digit) : N :=
  match d with
  | D0 => 0 | D1 => 1 | D2 => 2 | D3 => 3 | D4 => 4
  | D5 => 5 | D6 => 6 | D7 => 7 | D8 => 8 | D9 => 9
  end%N.

(** What a text accepted by [float] denotes, before rounding to binary64:
    sign, digits of the integer and fractional parts, decimal exponent; or
    an infinity; or a NaN. *)
Inductive float_literal :=
| FloatDec (negative : bool) (int_digits frac_digits : list N) (exponent : Z)
| FloatInf (negative : bool)
| FloatNan (negative : bool).

(** [Py_ISSPACE]: the ASCII whitespace [float] strips. *)
Definition ascii_isspace (c : N) : bool :=
  (in_range 0x09 0x0D c || (c =? 0x20))%N.

Definition ascii_strip (s : list N) : list N :=
  rev (drop_while ascii_isspace (rev (drop_while ascii_isspace s))).

Definition is_digit (c : N) : bool := in_range 48 57 c.

(** [Py_TOLOWER]. *)
Definition tolower (c : N) : N :=
  if in_range 65 90 c then (c + 32)%N else c.

(** [_Py_string_to_number_with_underscores]: an underscore is dropped when
    it stands between two digits and is an error anywhere else. *)
Fixpoint remove_underscores_from (prev : N) (s : list N) : option (list N) :=
  match s with
  | [] => if (prev =? 95)%N then None else Some []
  | c :: s' =>
      if (c =? 95)%N then
        if is_digit prev then remove_underscores_from c s' else None
      else if (prev =? 95)%N && negb (is_digit c) then None
      else option_map (cons c) (remove_underscores_from c s')
  end.

Definition remove_underscores (s : list N) : option (list N) :=
  remove_underscores_from 0%N s.

(** The longest run of ASCII digits at the front, as digit values, and what
    follows it. *)
Fixpoint span_digits (s : list N) : list N * list N :=
  match s with
  | [] => ([], [])
  | c :: s' =>
      if is_digit c
      then let (ds, r) := span_digits s' in ((c - 48)%N :: ds, r)
      else ([], s)
  end.

Definition digits_value (ds : list N) : N :=
  fold_left (fun acc d => (acc * 10 + d)%N) ds 0%N.

Definition parse_sign (s : list N) : bool * list N :=
  match s with
  | 45%N :: t => (true, t)
  | 43%N :: t => (false, t)
  | _ => (false, s)
  end.

(** The decimal grammar of [_Py_dg_strtod], required to span the whole text:
    [sign? (digits ('.' digits?)? | '.' digits) ([eE] sign? digits)?]. *)
Definition parse_decimal (s : list N) : option float_literal :=
  let (neg, s1) := parse_sign s in
  let (ip, s2) := span_digits s1 in
  let (fp, s3) := match s2 with
                  | 46%N :: t => span_digits t
                  | _ => ([], s2)
                  end in
  match ip, fp with
  | [], [] => None
  | _, _ =>
      match s3 with
      | [] => Some (FloatDec neg ip fp 0)
      | e :: t =>
          if (tolower e =? 101)%N then
            let (eneg, t1) := parse_sign t in
            let (ed, t2) := span_digits t1 in
            match ed, t2 with
            | _ :: _, [] =>
                let v := Z.of_N (digits_value ed) in
                Some (FloatDec neg ip fp (if eneg then - v else v))
            | _, _ => None
            end
          else None
      end
  end.

(** [case_insensitive_match]: [t] (lower case) at the front of [s]. *)
Fixpoint ci_match (t s : list N) : option (list N) :=
  match t with
  | [] => Some s
  | x :: t' =>
      match s with
      | [] => None
      | y :: s' => if (tolower y =? x)%N then ci_match t' s' else None
      end
  end.

(** [_Py_parse_inf_or_nan], required to span the whole text. *)
Definition parse_inf_or_nan (s : list N) : option float_literal :=
  let (neg, s1) := parse_sign s in
  match ci_match (lit "inf") s1 with
  | Some r =>
      match (match ci_match (lit "inity") r with Some r' => r' | None => r end) with
      | [] => Some (FloatInf neg)
      | _ :: _ => None
      end
  | None =>
      match ci_match (lit "nan") s1 with
      | Some [] => Some (FloatNan neg)
      | _ => None
      end
  end.

(** ** Exceptions and results *)

Inductive exn :=
| OSError (errno : Z)
| KeyboardInterrupt
| UnicodeEncodeError
| UnicodeDecodeError
| AttributeError (name : str)
| ValueError (text : str)
| ConnectionError (message : str).

Inductive result (A : Type) :=
| Ok (a : A)
| Raise (e : exn).

Arguments Raise {A} e.

(** ** The operating system *)

(** What a system call hands back to Python: a value, or an [errno], which
    becomes [OSError], or nothing because a signal handler raised
    [KeyboardInterrupt] while the call was blocked. *)
Inductive sysret (A : Type) :=
| Done (a : A)
| Errno (e : Z)
| Interrupted.

Arguments Errno {A} e.
Arguments Interrupted {A}.

(** One call into the operating system, with what it returned.  The delay
    of [time.sleep] is kept in milliseconds. *)
Inductive event :=
| EvOpen (path : str) (flags : Z) (r : sysret Z)
| EvWrite (fd : Z) (data : bytes) (r : sysret Z)
| EvSleep (ms : N) (interrupted : bool)
| EvRead (fd : Z) (n : N) (r : sysret bytes)
| EvClose (fd : Z) (r : sysret unit).

(** The device file and the kernel are a black box: each call's outcome is
    an arbitrary function of everything that happened before and of the
    call's arguments. *)
Record OS := {
  on_open : list event -> str -> Z -> sysret Z;
  on_write : list event -> Z -> bytes -> sysret Z;
  on_sleep : list event -> N -> bool;
  on_read : list event -> Z -> N -> sysret bytes;
  on_close : list event -> Z -> sysret unit
}.

Section Client.

(** The Unicode database's decimal-digit property for the code points that
    are not ASCII; the ASCII digits are handled by the grammar itself. *)
Variable unicode_digit : N -> option digit.

(** [_PyUnicode_TransformDecimalAndSpaceToASCII]: ASCII is kept, other
    whitespace becomes a space, other decimal digits become ASCII digits,
    and the text is cut at the first other character, which becomes [?]. *)
Fixpoint transform_to_ascii (s : str) : list N :=
  match s with
  | [] => []
  | c :: s' =>
      if (c <? 127)%N then c :: transform_to_ascii s'
      else if isspace c then 32%N :: transform_to_ascii s'
      else match unicode_digit c with
           | Some d => (48 + digit_value d)%N :: transform_to_ascii s'
           | None => [63%N]
           end
  end.

(** The grammar of [float(s)] for a [str] argument: [None] is the
    [ValueError] case. *)
Definition float_of_str (s : str) : option float_literal :=
  match remove_underscores (transform_to_ascii s) with
  | None => None
  | Some a =>
      let b := ascii_strip a in
      match parse_decimal b with
      | Some l => Some l
      | None => parse_inf_or_nan b
      end
  end.

(** Binary64 itself is left abstract: how a literal is rounded to a
    [float], and how [repr] prints a [float] and a [str]. *)
Variable float : Type.
Variable float_of_literal : float_literal -> float.
Variable repr_float : float -> str.
Variable repr_str : str -> str.

Variable os : OS.

(** [history]: the calls made so far, oldest first.  [handles]: the
    descriptors currently open in this process. *)
Record world := {
  history : list event;
  handles : list Z
}.

Fixpoint remove_one (fd : Z) (l : list Z) : list Z :=
  match l with
  | [] => []
  | x :: l' => if Z.eqb fd x then l' else x :: remove_one fd l'
  end.

(** ** The Python object and the machine state *)

(** The instance attributes; [None] is an attribute that is not set. *)
Record RigolDP832A := {
  device : option str;
  idn : option str
}.

(** Ghost log: one entry per invocation of [command] or [query]. *)
Inductive call :=
| Send (cmd : str)
| Query (cmd : str).

Record state := {
  self : RigolDP832A;
  sys : world;
  calls : list call
}.

Definition M (A : Type) : Type := state -> result A * state.

Definition ret {A} (a : A) : M A := fun s => (Ok a, s).

Definition raise {A} (e : exn) : M A := fun s => (Raise e, s).

Definition bind {A B} (m : M A) (k : A -> M B) : M B :=
  fun s =>
    match m s with
    | (Ok a, s') => k a s'
    | (Raise e, s') => (Raise e, s')
    end.

(** [try: body finally: fin].  The [finally] block always runs; what it
    raises replaces the outcome of [body], otherwise that outcome (a value
    or an exception) stands. *)
Definition try_finally {A} (body : M A) (fin : M unit) : M A :=
  fun s =>
    let (r, s1) := body s in
    match fin s1 with
    | (Ok _, s2) => (r, s2)
    | (Raise e, s2) => (Raise e, s2)
    end.

Notation "x <- m ;; k" := (bind m (fun x => k))
  (at level 61, m at next level, right associativity).
Notation "m ;; k" := (bind m (fun _ => k))
  (at level 61, right associativity).

Definition with_world (s : state) (w : world) : state :=
  {| self := self s; sys := w; calls := calls s |}.

Definition record_event (s : state) (e : event) (hs : list Z) : state :=
  with_world s {| history := history (sys s) ++ [e]; handles := hs |}.

(** Ghost: log an invocation. *)
Definition log (c : call) : M unit :=
  fun s => (Ok tt, {| self := self s; sys := sys s; calls := calls s ++ [c] |}).

(** [self.device], [self.idn]. *)
Definition get_device : M str :=
  fun s =>
    match device (self s) with
    | Some d => (Ok d, s)
    | None => (Raise (AttributeError (lit "device")), s)
    end.

Definition get_idn : M str :=
  fun s =>
    match idn (self s) with
    | Some i => (Ok i, s)
    | None => (Raise (AttributeError (lit "idn")), s)
    end.

(** [self.device = d], [self.idn = i]. *)
Definition set_device (d : str) : M unit :=
  fun s => (Ok tt, {| self := {| device := Some d; idn := idn (self s) |};
                      sys := sys s; calls := calls s |}).

Definition set_idn (i : str) : M unit :=
  fun s => (Ok tt, {| self := {| device := device (self s); idn := Some i |};
                      sys := sys s; calls := calls s |}).

Definition O_RDWR : Z := 2.

(** [os.open(path, flags)]: a descriptor that enters the table, or an
    exception. *)
Definition os_open (path : str) (flags : Z) : M Z :=
  fun s =>
    let w := sys s in
    let r := on_open os (history w) path flags in
    match r with
    | Done fd => (Ok fd, record_event s (EvOpen path flags r) (fd :: handles w))
    | Errno e => (Raise (OSError e), record_event s (EvOpen path flags r) (handles w))
    | Interrupted => (Raise KeyboardInterrupt,
                      record_event s (EvOpen path flags r) (handles w))
    end.

(** [os.write(fd, data)]: the number of bytes written, or an exception. *)
Definition os_write (fd : Z) (data : bytes) : M Z :=
  fun s =>
    let w := sys s in
    let r := on_write os (history w) fd data in
    let s' := record_event s (EvWrite fd data r) (handles w) in
    match r with
    | Done n => (Ok n, s')
    | Errno e => (Raise (OSError e), s')
    | Interrupted => (Raise KeyboardInterrupt, s')
    end.

(** [time.sleep], the delay in milliseconds: returns, or is interrupted
    ([KeyboardInterrupt]). *)
Definition time_sleep (ms : N) : M unit :=
  fun s =>
    let w := sys s in
    let i := on_sleep os (history w) ms in
    let s' := record_event s (EvSleep ms i) (handles w) in
    if i then (Raise KeyboardInterrupt, s') else (Ok tt, s').

(** [os.read(fd, n)]: at most [n] bytes, or an exception. *)
Definition os_read (fd : Z) (n : N) : M bytes :=
  fun s =>
    let w := sys s in
    let r := on_read os (history w) fd n in
    let s' := record_event s (EvRead fd n r) (handles w) in
    match r with
    | Done bs => (Ok (firstn (N.to_nat n) bs), s')
    | Errno e => (Raise (OSError e), s')
    | Interrupted => (Raise KeyboardInterrupt, s')
    end.

(** [os.close(fd)]: the descriptor leaves the table whatever is reported
    (on Linux a [close] that fails or is interrupted has released the
    descriptor all the same). *)
Definition os_close (fd : Z) : M unit :=
  fun s =>
    let w := sys s in
    let r := on_close os (history w) fd in
    let s' := record_event s (EvClose fd r) (remove_one fd (handles w)) in
    match r with
    | Done _ => (Ok tt, s')
    | Errno e => (Raise (OSError e), s')
    | Interrupted => (Raise KeyboardInterrupt, s')
    end.

(** [s.encode()], [bs.decode('utf-8')], [float(s)] as computations. *)
Definition py_encode (s : str) : M bytes :=
  match encode s with
  | Some bs => ret bs
  | None => raise UnicodeEncodeError
  end.

Definition py_decode (bs : bytes) : M str :=
  match decode bs with
  | Some s => ret s
  | None => raise UnicodeDecodeError
  end.

Definition py_float (s : str) : M float :=
  match float_of_str s with
  | Some l => ret (float_of_literal l)
  | None => raise (ValueError s)
  end.

(** ** [rigol.py] *)

Definition DEFAULT_DEVICE : str := lit "/dev/usbtmc2".

Record ChannelStatus := {
  channel : Z;
  output : bool;
  voltage_set : float;
  current_set : float;
  voltage : float;
  current : float;
  power : float
}.

(** [command]: send a command, no response expected. *)
Definition command (cmd : str) : M unit :=
  log (Send cmd) ;;
  path <- get_device ;;
  fd <- os_open path O_RDWR ;;              (* fd = os.open(self.device, os.O_RDWR) *)
  try_finally
    (data <- py_encode (cmd ++ LF) ;;
     os_write fd data ;;                    (* os.write(fd, (cmd + '\n').encode()) *)
     time_sleep 50)                         (* time.sleep(0.05) *)
    (os_close fd).                          (* finally: os.close(fd) *)

(** [query]: send a command and read the response. *)
Definition query (cmd : str) : M str :=
  log (Query cmd) ;;
  path <- get_device ;;
  fd <- os_open path O_RDWR ;;              (* fd = os.open(self.device, os.O_RDWR) *)
  try_finally
    (data <- py_encode (cmd ++ LF) ;;
     os_write fd data ;;                    (* os.write(fd, (cmd + '\n').encode()) *)
     time_sleep 100 ;;                      (* time.sleep(0.1) *)
     raw <- os_read fd 4096 ;;              (* os.read(fd, 4096) *)
     text <- py_decode raw ;;               (*   .decode('utf-8') *)
     ret (strip text))                      (*   .strip() *)
    (os_close fd).                          (* finally: os.close(fd) *)

(** [_verify_connection]: verify we can talk to the device. *)
Definition _verify_connection : M unit :=
  i <- query (lit "*IDN?") ;;
  if negb (contains (lit "RIGOL") i) && negb (contains (lit "DP8") i)
  then raise (ConnectionError (lit "Unexpected device response: " ++ i))
  else set_idn i.

Definition __init__ (dev : str) : M unit :=
  set_device dev ;;
  _verify_connection.

(** Output control *)
Definition output_on (channel : Z) : M unit :=
  command (lit ":OUTP CH" ++ str_of_int channel ++ lit ",ON").

Definition output_off (channel : Z) : M unit :=
  command (lit ":OUTP CH" ++ str_of_int channel ++ lit ",OFF").

Definition get_output (channel : Z) : M bool :=
  r <- query (lit ":OUTP? CH" ++ str_of_int channel) ;;
  ret (str_eqb r (lit "ON")).

(** Voltage control *)
Definition set_voltage (channel : Z) (voltage : float) : M unit :=
  command (lit ":SOUR" ++ str_of_int channel ++ lit ":VOLT " ++ repr_float voltage).

Definition get_voltage_setpoint (channel : Z) : M float :=
  r <- query (lit ":SOUR" ++ str_of_int channel ++ lit ":VOLT?") ;;
  py_float r.

Definition measure_voltage (channel : Z) : M float :=
  r <- query (lit ":MEAS:VOLT? CH" ++ str_of_int channel) ;;
  py_float r.

(** Current control *)
Definition set_current (channel : Z) (current : float) : M unit :=
  command (lit ":SOUR" ++ str_of_int channel ++ lit ":CURR " ++ repr_float current).

Definition get_current_setpoint (channel : Z) : M float :=
  r <- query (lit ":SOUR" ++ str_of_int channel ++ lit ":CURR?") ;;
  py_float r.

Definition measure_current (channel : Z) : M float :=
  r <- query (lit ":MEAS:CURR? CH" ++ str_of_int channel) ;;
  py_float r.

(** Power measurement *)
Definition measure_power (channel : Z) : M float :=
  r <- query (lit ":MEAS:POWE? CH" ++ str_of_int channel) ;;
  py_float r.

(** OVP/OCP protection *)
Definition set_ovp (channel : Z) (voltage : float) : M unit :=
  command (lit ":OUTP:OVP:VAL CH" ++ str_of_int channel ++ lit "," ++ repr_float voltage) ;;
  command (lit ":OUTP:OVP CH" ++ str_of_int channel ++ lit ",ON").

Definition set_ocp (channel : Z) (current : float) : M unit :=
  command (lit ":OUTP:OCP:VAL CH" ++ str_of_int channel ++ lit "," ++ repr_float current) ;;
  command (lit ":OUTP:OCP CH" ++ str_of_int channel ++ lit ",ON").

(** Convenience methods *)
Definition status (channel : Z) : M ChannelStatus :=
  o <- get_output channel ;;
  vs <- get_voltage_setpoint channel ;;
  cs <- get_current_setpoint channel ;;
  v <- measure_voltage channel ;;
  c <- measure_current channel ;;
  p <- measure_power channel ;;
  ret {| channel := channel; output := o; voltage_set := vs;
         current_set := cs; voltage := v; current := c; power := p |}.

(** [for x in xs: body x]. *)
Fixpoint for_each {A} (xs : list A) (body : A -> M unit) : M unit :=
  match xs with
  | [] => ret tt
  | x :: xs' => body x ;; for_each xs' body
  end.

Definition all_off : M unit :=
  for_each [1; 2; 3]%Z output_off.

Definition configure (channel : Z) (voltage current : float) (output : bool)
  : M unit :=
  set_voltage channel voltage ;;
  set_current channel current ;;
  if output then output_on channel else ret tt.

(** [configure] with [output] left at its default, [False]. *)
Definition configure_default (channel : Z) (voltage current : float) : M unit :=
  configure channel voltage current false.

Definition __repr__ : M str :=
  d <- get_device ;;
  i <- get_idn ;;
  ret (lit "RigolDP832A(" ++ repr_str d ++ lit ") - " ++ i).

(** [RigolDP832A(device)]: a fresh object with no attribute, on which
    [__init__] runs; the object is handed out only if [__init__] returns. *)
Definition fresh_object : RigolDP832A := {| device := None; idn := None |}.

Definition construct (dev : str) (w : world) (cs : list call)
  : result RigolDP832A * state :=
  match __init__ dev {| self := fresh_object; sys := w; calls := cs |} with
  | (Ok _, s) => (Ok (self s), s)
  | (Raise e, s) => (Raise e, s)
  end.

(** [RigolDP832A()]: the [device] argument left at its default. *)
Definition construct_default (w : world) (cs : list call)
  : result RigolDP832A * state :=
  construct DEFAULT_DEVICE w cs.

(** ** The operations of a constructed client *)

Inductive method :=
| Mcommand (cmd : str)
| Mquery (cmd : str)
| Moutput_on (channel : Z)
| Moutput_off (channel : Z)
| Mget_output (channel : Z)
| Mset_voltage (channel : Z) (voltage : float)
| Mget_voltage_setpoint (channel : Z)
| Mmeasure_voltage (channel : Z)
| Mset_current (channel : Z) (current : float)
| Mget_current_setpoint (channel : Z)
| Mmeasure_current (channel : Z)
| Mmeasure_power (channel : Z)
| Mset_ovp (channel : Z) (voltage : float)
| Mset_ocp (channel : Z) (current : float)
| Mstatus (channel : Z)
| Mall_off
| Mconfigure (channel : Z) (voltage current : float) (output : bool)
| Mrepr.

Inductive value :=
| VNone
| VStr (s : str)
| VBool (b : bool)
| VFloat (x : float)
| VStatus (st : ChannelStatus).

Definition returning {A} (f : A -> value) (m : M A) : M value :=
  x <- m ;; ret (f x).

Definition call_method (m : method) : M value :=
  match m with
  | Mcommand cmd => returning (fun _ => VNone) (command cmd)
  | Mquery cmd => returning VStr (query cmd)
  | Moutput_on ch => returning (fun _ => VNone) (output_on ch)
  | Moutput_off ch => returning (fun _ => VNone) (output_off ch)
  | Mget_output ch => returning VBool (get_output ch)
  | Mset_voltage ch v => returning (fun _ => VNone) (set_voltage ch v)
  | Mget_voltage_setpoint ch => returning VFloat (get_voltage_setpoint ch)
  | Mmeasure_voltage ch => returning VFloat (measure_voltage ch)
  | Mset_current ch c => returning (fun _ => VNone) (set_current ch c)
  | Mget_current_setpoint ch => returning VFloat (get_current_setpoint ch)
  | Mmeasure_current ch => returning VFloat (measure_current ch)
  | Mmeasure_power ch => returning VFloat (measure_power ch)
  | Mset_ovp ch v => returning (fun _ => VNone) (set_ovp ch v)
  | Mset_ocp ch c => returning (fun _ => VNone) (set_ocp ch c)
  | Mstatus ch => returning VStatus (status ch)
  | Mall_off => returning (fun _ => VNone) all_off
  | Mconfigure ch v c o => returning (fun _ => VNone) (configure ch v c o)
  | Mrepr => returning VStr __repr__
  end.

(** ** Observations used by the specifications *)

(** The system calls made between two states. *)
Definition events_since (s s' : state) : list event :=
  skipn (List.length (history (sys s))) (history (sys s')).

Definition is_open_or_close (e : event) : bool :=
  match e with
  | EvOpen _ _ _ | EvClose _ _ => true
  | _ => false
  end.

Fixpoint closes_last (fd : Z) (evs : list event) : bool :=
  match evs with
  | [] => false
  | [EvClose fd' _] => Z.eqb fd fd'
  | e :: evs' => negb (is_open_or_close e) && closes_last fd evs'
  end.

(** A scoped use of the device: nothing at all, or an [os.open] that
    failed, or an [os.open] that returned [fd] followed by calls that
    neither open nor close anything and then, last, [os.close(fd)]. *)
Definition scoped (evs : list event) : bool :=
  match evs with
  | [] => true
  | [EvOpen _ _ (Errno _)] => true
  | [EvOpen _ _ Interrupted] => true
  | EvOpen _ _ (Done fd) :: evs' => closes_last fd evs'
  | _ => false
  end.

(** The oracle answers the calls of [evs], made one after the other from
    history [h], as [evs] records. *)
Fixpoint answers (h : list event) (evs : list event) : Prop :=
  match evs with
  | [] => True
  | e :: evs' =>
      match e with
      | EvOpen p f r => on_open os h p f = r
      | EvWrite fd d r => on_write os h fd d = r
      | EvSleep ms i => on_sleep os h ms = i
      | EvRead fd n r => on_read os h fd n = r
      | EvClose fd r => on_close os h fd = r
      end /\ answers (h ++ [e]) evs'
  end.

(** The system calls of one [query] in which nothing fails. *)
Definition exchange (path : str) (fd : Z) (data : bytes) (n : Z) (reply : bytes)
  : list event :=
  [EvOpen path O_RDWR (Done fd); EvWrite fd data (Done n); EvSleep 100 false;
   EvRead fd 4096 (Done reply); EvClose fd (Done tt)].

(** No whitespace at either end. *)
Definition trimmed (s : str) : Prop :=
  (forall c t, s = c :: t -> isspace c = false) /\
  (forall t c, s = t ++ [c] -> isspace c = false).

(** The queries behind the five numeric readings of a channel. *)
Definition float_queries (channel : Z) : list (str * M float) :=
  [(lit ":SOUR" ++ str_of_int channel ++ lit ":VOLT?", get_voltage_setpoint channel);
   (lit ":MEAS:VOLT? CH" ++ str_of_int channel, measure_voltage channel);
   (lit ":SOUR" ++ str_of_int channel ++ lit ":CURR?", get_current_setpoint channel);
   (lit ":MEAS:CURR? CH" ++ str_of_int channel, measure_current channel);
   (lit ":MEAS:POWE? CH" ++ str_of_int channel, measure_power channel)].

(** The six queries of [status], in the order it makes them. *)
Definition status_queries (channel : Z) : list call :=
  [Query (lit ":OUTP? CH" ++ str_of_int channel);
   Query (lit ":SOUR" ++ str_of_int channel ++ lit ":VOLT?");
   Query (lit ":SOUR" ++ str_of_int channel ++ lit ":CURR?");
   Query (lit ":MEAS:VOLT? CH" ++ str_of_int channel);
   Query (lit ":MEAS:CURR? CH" ++ str_of_int channel);
   Query (lit ":MEAS:POWE? CH" ++ str_of_int channel)].

(** The failures of the device file and of the codecs, as opposed to the
    exceptions that report an unusable reply. *)
Definition io_failure (e : exn) : bool :=
  match e with
  | ValueError _ | ConnectionError _ => false
  | _ => true
  end.

(** Every exception [m] can end with satisfies [P]. *)
Definition raises_only {A} (P : exn -> bool) (m : M A) : Prop :=
  forall s e, fst (m s) = Raise e -> P e = true.

(** The send that turns a channel off. *)
Definition off_send (channel : Z) : call :=
  Send (lit ":OUTP CH" ++ str_of_int channel ++ lit ",OFF").

(** [m] leaves the observation [f] of the state as it found it. *)
Definition keeps {X A} (f : state -> X) (m : M A) : Prop :=
  forall s, f (snd (m s)) = f s.

Definition open_handles (s : state) : list Z := handles (sys s).

Definition past (s : state) : list event := history (sys s).

(** [m] makes system calls that neither open nor close a descriptor. *)
Definition quiet {A} (m : M A) : Prop :=
  forall s, exists evs,
    past (snd (m s)) = past s ++ evs /\
    forallb (fun e => negb (is_open_or_close e)) evs = true.

(** ** Simulated devices, for concrete runs *)

Definition ascii_bytes (s : string) : bytes := list_byte_of_string s.

Definition bytes_eqb (a b : bytes) : bool :=
  N_list_eqb (map Byte.to_N a) (map Byte.to_N b).

(** The last line written to the device. *)
Definition last_written (h : list event) : bytes :=
  fold_left (fun acc e => match e with EvWrite _ d _ => d | _ => acc end) h [].

(** An instrument on which every call succeeds: [os.open] returns
    descriptor 3 and a read returns [reply c] for the last line [c]
    written. *)
Definition instrument (reply : bytes -> bytes) : OS :=
  {| on_open := fun _ _ _ => Done 3%Z;
     on_write := fun _ _ d => Done (Z.of_nat (List.length d));
     on_sleep := fun _ _ => false;
     on_read := fun h _ _ => Done (reply (last_written h));
     on_close := fun _ _ => Done tt |}.

(** A supply that identifies itself, reports the output of channel 2 on,
    every other output off, and every numeric reading as [5.000]. *)
Definition bench_reply (c : bytes) : bytes :=
  if bytes_eqb c (ascii_bytes "*IDN?" ++ [x0a])
  then ascii_bytes "RIGOL TECHNOLOGIES,DP832A,DP8B000000001,00.01.16" ++ [x0a]
  else if bytes_eqb c (ascii_bytes ":OUTP? CH2" ++ [x0a])
  then ascii_bytes "ON" ++ [x0a]
  else if bytes_eqb (firstn 6 c) (ascii_bytes ":OUTP?")
       then ascii_bytes "OFF" ++ [x0a]
       else ascii_bytes "5.000" ++ [x0a].

Definition bench : OS := instrument bench_reply.

(** A device that answers [ERR] to everything. *)
Definition garbled : OS := instrument (fun _ => ascii_bytes "ERR" ++ [x0a]).

(** Some other instrument behind the device file. *)
Definition stranger : OS := instrument (fun _ => ascii_bytes "ACME,PSU-1" ++ [x0a]).

(** No device: [os.open] fails with [ENODEV]. *)
Definition unplugged : OS :=
  {| on_open := fun _ _ _ => Errno 19%Z;
     on_write := fun _ _ _ => Errno 9%Z;
     on_sleep := fun _ _ => false;
     on_read := fun _ _ _ => Errno 9%Z;
     on_close := fun _ _ => Errno 9%Z |}.

(** A device that opens but rejects every write with [EIO]. *)
Definition write_protected : OS :=
  {| on_open := fun _ _ _ => Done 3%Z;
     on_write := fun _ _ _ => Errno 5%Z;
     on_sleep := fun _ _ => false;
     on_read := fun _ _ _ => Done [];
     on_close := fun _ _ => Done tt |}.

(** A device that never answers: the read blocks until the user
    interrupts it. *)
Definition hung : OS :=
  {| on_open := fun _ _ _ => Done 3%Z;
     on_write := fun _ _ d => Done (Z.of_nat (List.length d));
     on_sleep := fun _ _ => false;
     on_read := fun _ _ _ => Interrupted;
     on_close := fun _ _ => Done tt |}.

Definition no_unicode_digits (c : N) : option digit := None.

(** A stand-in for [repr] on floats: sign, integer digits, point,
    fractional digits. *)
Definition plain_repr (x : float_literal) : str :=
  match x with
  | FloatDec neg ip fp _ =>
      (if neg then lit "-" else []) ++ map (N.add 48) ip ++ lit "." ++ map (N.add 48) fp
  | FloatInf neg => (if neg then lit "-" else []) ++ lit "inf"
  | FloatNan _ => lit "nan"
  end.

(** A stand-in for binary64: a literal stands for itself. *)
Definition same (l : float_literal) : float_literal := l.

(** What [float] makes of the bench supply's [5.000]. *)
Definition bench_reading : float_literal := FloatDec false [5%N] [0%N; 0%N; 0%N] 0.

Definition five_volts : float_literal := FloatDec false [5%N] [0%N] 0.
Definition half_amp : float_literal := FloatDec false [0%N] [5%N] 0.

Definition boot : world := {| history := []; handles := [] |}.

Definition bench_idn : str :=
  lit "RIGOL TECHNOLOGIES,DP832A,DP8B000000001,00.01.16".

(** A constructed client on the default device, nothing done yet. *)
Definition ready : state :=
  {| self := {| device := Some DEFAULT_DEVICE;
                idn := Some bench_idn |};
     sys := boot;
     calls := [] |}.

(** ** Observations on whole operations *)

(** Every system call [m] makes satisfies [P]. *)
Definition only {A} (P : event -> bool) (m : M A) : Prop :=
  forall s, exists evs,
    past (snd (m s)) = past s ++ evs /\ forallb P evs = true.

(** Every value [m] returns satisfies [P]. *)
Definition returns_only {A} (P : A -> Prop) (m : M A) : Prop :=
  forall s a, fst (m s) = Ok a -> P a.

(** A call that uses descriptor [fd], or waits. *)
Definition on_fd (fd : Z) (e : event) : bool :=
  match e with
  | EvWrite fd' _ _ | EvRead fd' _ _ => Z.eqb fd' fd
  | EvSleep _ _ => true
  | _ => false
  end.

(** The discipline of the device channel on path [p], checked call by
    call; [held] is the descriptor currently open.  With nothing open the
    only call allowed is [os.open(p, os.O_RDWR)]; with [fd] open the calls
    allowed are writes and reads on [fd], delays, and [os.close(fd)]; at
    the end nothing is open. *)
Fixpoint follows_protocol (p : str) (held : option Z) (evs : list event) : bool :=
  match evs with
  | [] => match held with None => true | Some _ => false end
  | e :: evs' =>
      match held, e with
      | None, EvOpen p' f (Done fd) =>
          str_eqb p' p && Z.eqb f O_RDWR && follows_protocol p (Some fd) evs'
      | None, EvOpen p' f _ =>
          str_eqb p' p && Z.eqb f O_RDWR && follows_protocol p None evs'
      | Some fd, EvClose fd' _ => Z.eqb fd' fd && follows_protocol p None evs'
      | Some fd, EvOpen _ _ _ => false
      | Some fd, _ => on_fd fd e && follows_protocol p (Some fd) evs'
      | None, _ => false
      end
  end.

(** [m], run by a client whose device path is set, follows the
    discipline on that path. *)
Definition disciplined {A} (m : M A) : Prop :=
  forall s p, device (self s) = Some p ->
    exists evs, past (snd (m s)) = past s ++ evs /\
                follows_protocol p None evs = true.

(** The operations that only send, and the ones that ask. *)
Inductive kind := Sends | Asks | Silent.

Definition kind_of (m : method) : kind :=
  match m with
  | Mcommand _ | Moutput_on _ | Moutput_off _ | Mset_voltage _ _
  | Mset_current _ _ | Mset_ovp _ _ | Mset_ocp _ _ | Mall_off
  | Mconfigure _ _ _ _ => Sends
  | Mquery _ | Mget_output _ | Mget_voltage_setpoint _ | Mmeasure_voltage _
  | Mget_current_setpoint _ | Mmeasure_current _ | Mmeasure_power _
  | Mstatus _ => Asks
  | Mrepr => Silent
  end.

(** What a sending operation may do: anything but read, and its delays
    are 50 ms. *)
Definition send_call (e : event) : bool :=
  match e with
  | EvRead _ _ _ => false
  | EvSleep ms _ => N.eqb ms 50
  | _ => true
  end.

(** What an asking operation may do: its reads ask for 4096 bytes and its
    delays are 100 ms. *)
Definition ask_call (e : event) : bool :=
  match e with
  | EvRead _ n _ => N.eqb n 4096
  | EvSleep ms _ => N.eqb ms 100
  | _ => true
  end.

Definition calls_allowed (k : kind) (e : event) : bool :=
  match k with
  | Sends => send_call e
  | Asks => ask_call e
  | Silent => false
  end.

(** The system calls of one [command] in which nothing fails. *)
Definition send_exchange (path : str) (fd : Z) (data : bytes) (n : Z)
  : list event :=
  [EvOpen path O_RDWR (Done fd); EvWrite fd data (Done n); EvSleep 50 false;
   EvClose fd (Done tt)].

(** The exception a failed system call becomes. *)
Definition failure_of {A} (r : sysret A) : option exn :=
  match r with
  | Done _ => None
  | Errno e => Some (OSError e)
  | Interrupted => Some KeyboardInterrupt
  end.

(** ** [repl.py]: the interactive front end *)

(** Builtins of the front end that are left abstract: [int(s)] (its
    acceptance depends on the interpreter's digit limit), [s.lower()]
    (the Unicode case tables), fixed-point formatting of a float
    ([format(x, '.3f')]), and [str(e)] for the exceptions whose text the
    operating system or a codec supplies. *)
Variable int_of_str : str -> option Z.
Variable lower : str -> str.
Variable format_fixed : nat -> float -> str.
Variable describe : exn -> str.

(** What the terminal shows: a [print] call with its argument, or the
    prompt of [input]. *)
Inductive out_event :=
| Print (text : str)
| Prompt (text : str).

(** What [input] gives: a line, or [KeyboardInterrupt], or [EOFError]. *)
Inductive in_event :=
| Line (text : str)
| CtrlC
| CtrlD.

(** The exceptions of the front end: its own, and those of the library. *)
Inductive repl_exn :=
| IndexError
| IntValueError (text : str)
| SystemExit (code : Z)
| Lib (e : exn).

(** [isinstance(e, ValueError)]: the Unicode errors are subclasses. *)
Definition is_ValueError (e : repl_exn) : bool :=
  match e with
  | IntValueError _ | Lib (ValueError _) | Lib UnicodeEncodeError
  | Lib UnicodeDecodeError => true
  | _ => false
  end.

(** [isinstance(e, Exception)]: all but [KeyboardInterrupt] and
    [SystemExit]. *)
Definition is_Exception (e : repl_exn) : bool :=
  match e with
  | Lib KeyboardInterrupt | SystemExit _ => false
  | _ => true
  end.

(** [str(e)]. *)
Definition str_of_exn (e : exn) : str :=
  match e with
  | ValueError t => lit "could not convert string to float: " ++ repr_str t
  | ConnectionError m => m
  | _ => describe e
  end.

Definition message (e : repl_exn) : str :=
  match e with
  | IndexError => lit "list index out of range"
  | IntValueError t => lit "invalid literal for int() with base 10: " ++ repr_str t
  | SystemExit c => str_of_int c
  | Lib e => str_of_exn e
  end.

Record console := {
  machine : state;
  screen : list out_event
}.

Inductive outcome (A : Type) :=
| Returned (a : A)
| Raised (e : repl_exn).

Arguments Raised {A} e.

Definition R (A : Type) : Type := console -> outcome A * console.

Definition rret {A} (a : A) : R A := fun c => (Returned a, c).

Definition rraise {A} (e : repl_exn) : R A := fun c => (Raised e, c).

Definition rbind {A B} (m : R A) (k : A -> R B) : R B :=
  fun c =>
    match m c with
    | (Returned a, c') => k a c'
    | (Raised e, c') => (Raised e, c')
    end.

Notation "x <~ m ;; k" := (rbind m (fun x => k))
  (at level 61, m at next level, right associativity).
Notation "m >> k" := (rbind m (fun _ => k))
  (at level 61, right associativity).

(** A call into the library. *)
Definition lift {A} (m : M A) : R A :=
  fun c =>
    match m (machine c) with
    | (Ok a, s) => (Returned a, {| machine := s; screen := screen c |})
    | (Raise e, s) => (Raised (Lib e), {| machine := s; screen := screen c |})
    end.

Definition show (o : out_event) : R unit :=
  fun c => (Returned tt, {| machine := machine c; screen := screen c ++ [o] |}).

(** [print(text)]. *)
Definition print (text : str) : R unit := show (Print text).

(** [try: body except ...: handler]: [handler e] is the clause that
    catches [e], if there is one. *)
Definition try_except {A} (body : R A) (handler : repl_exn -> option (R A)) : R A :=
  fun c =>
    match body c with
    | (Returned a, c') => (Returned a, c')
    | (Raised e, c') =>
        match handler e with
        | Some h => h c'
        | None => (Raised e, c')
        end
    end.

Fixpoint rfor_each {A} (xs : list A) (body : A -> R unit) : R unit :=
  match xs with
  | [] => rret tt
  | x :: xs' => body x >> rfor_each xs' body
  end.

(** [t.ljust(w)], as the format [{t:<w}] pads. *)
Definition ljust (w : nat) (t : str) : str :=
  t ++ repeat 32%N (w - List.length t).

(** [s.split()]: the words between runs of whitespace. *)
Fixpoint split_words (word : str) (s : str) : list str :=
  match s with
  | [] => match word with [] => [] | _ :: _ => [word] end
  | c :: s' =>
      if isspace c
      then match word with
           | [] => split_words [] s'
           | _ :: _ => word :: split_words [] s'
           end
      else split_words (word ++ [c]) s'
  end.

Definition split (s : str) : list str := split_words [] s.

(** [sep.join(parts)]. *)
Fixpoint join (sep : str) (parts : list str) : str :=
  match parts with
  | [] => []
  | [p] => p
  | p :: parts' => p ++ sep ++ join sep parts'
  end.

(** The module docstring, which [help] prints. *)
Definition help_text : str :=
  LF ++ List.concat (map (fun l => lit l ++ LF)
    (["Rigol DP832A Interactive REPL";
     EmptyString;
     "Commands:";
     "  status [ch]          - Show channel status (default: all)";
     "  set <ch> <v> <a>     - Set voltage and current";
     "  on <ch>              - Turn output on";
     "  off <ch>             - Turn output off";
     "  alloff               - Turn all outputs off";
     "  v <ch> <voltage>     - Set voltage only";
     "  i <ch> <current>     - Set current only";
     "  measure <ch>         - Show measurements";
     "  raw <command>        - Send raw SCPI command";
     "  help                 - Show this help";
     "  quit                 - Exit"]%string)).

Definition status_header : str :=
  LF ++ ljust 4 (lit "CH") ++ lit " " ++ ljust 5 (lit "OUT") ++ lit " "
     ++ ljust 8 (lit "V SET") ++ lit " " ++ ljust 8 (lit "I SET") ++ lit " "
     ++ ljust 9 (lit "V MEAS") ++ lit " " ++ ljust 9 (lit "I MEAS") ++ lit " "
     ++ ljust 8 (lit "POWER").

Definition status_row (ch : Z) (st : ChannelStatus) : str :=
  ljust 4 (str_of_int ch) ++ lit " "
  ++ ljust 5 (if output st then lit "ON" else lit "OFF") ++ lit " "
  ++ ljust 8 (format_fixed 3 (voltage_set st)) ++ lit " "
  ++ ljust 8 (format_fixed 3 (current_set st)) ++ lit " "
  ++ ljust 9 (format_fixed 4 (voltage st)) ++ lit " "
  ++ ljust 9 (format_fixed 4 (current st)) ++ lit " "
  ++ ljust 8 (format_fixed 3 (power st)).

(** [channels = [channel] if channel else [1, 2, 3]]: [None] and [0] are
    false. *)
Definition channels_of (channel : option Z) : list Z :=
  match channel with
  | Some ch => if Z.eqb ch 0 then [1; 2; 3]%Z else [ch]
  | None => [1; 2; 3]%Z
  end.

(** [print_status]: print channel status. *)
Definition print_status (channel : option Z) : R unit :=
  print status_header >>
  print (repeat 45%N 60) >>
  rfor_each (channels_of channel)
    (fun ch => st <~ lift (status ch) ;; print (status_row ch st)) >>
  print [].

Definition print_help : R unit := print help_text.

(** [args[k]]. *)
Definition item (args : list str) (k : nat) : R str :=
  match nth_error args k with
  | Some a => rret a
  | None => rraise IndexError
  end.

(** [int(t)]. *)
Definition py_int (t : str) : R Z :=
  match int_of_str t with
  | Some z => rret z
  | None => rraise (IntValueError t)
  end.

(** [int(args[k])], [float(args[k])]. *)
Definition int_item (args : list str) (k : nat) : R Z :=
  a <~ item args k ;; py_int a.

Definition float_item (args : list str) (k : nat) : R float :=
  a <~ item args k ;; lift (py_float a).

Inductive control := Continue | Break.

(** The body of the [try] in the loop of [main]: one command. *)
Definition execute (cmd : str) (args : list str) : R control :=
  if str_eqb cmd (lit "quit") || str_eqb cmd (lit "exit") || str_eqb cmd (lit "q")
  then print (lit "Bye!") >> rret Break
  else if str_eqb cmd (lit "help")
  then print_help >> rret Continue
  else if str_eqb cmd (lit "status")
  then
    ch <~ match args with
          | [] => rret None
          | _ :: _ => z <~ int_item args 0 ;; rret (Some z)
          end ;;
    print_status ch >> rret Continue
  else if str_eqb cmd (lit "set")
  then
    ch <~ int_item args 0 ;;
    v <~ float_item args 1 ;;
    i <~ float_item args 2 ;;
    lift (set_voltage ch v) >>
    lift (set_current ch i) >>
    print (lit "CH" ++ str_of_int ch ++ lit ": " ++ repr_float v ++ lit "V, "
           ++ repr_float i ++ lit "A") >>
    rret Continue
  else if str_eqb cmd (lit "on")
  then
    ch <~ int_item args 0 ;;
    lift (output_on ch) >>
    print (lit "CH" ++ str_of_int ch ++ lit " ON") >>
    rret Continue
  else if str_eqb cmd (lit "off")
  then
    ch <~ int_item args 0 ;;
    lift (output_off ch) >>
    print (lit "CH" ++ str_of_int ch ++ lit " OFF") >>
    rret Continue
  else if str_eqb cmd (lit "alloff")
  then
    lift all_off >>
    print (lit "All outputs OFF") >>
    rret Continue
  else if str_eqb cmd (lit "v")
  then
    ch <~ int_item args 0 ;;
    v <~ float_item args 1 ;;
    lift (set_voltage ch v) >>
    print (lit "CH" ++ str_of_int ch ++ lit ": " ++ repr_float v ++ lit "V") >>
    rret Continue
  else if str_eqb cmd (lit "i")
  then
    ch <~ int_item args 0 ;;
    i <~ float_item args 1 ;;
    lift (set_current ch i) >>
    print (lit "CH" ++ str_of_int ch ++ lit ": " ++ repr_float i ++ lit "A") >>
    rret Continue
  else if str_eqb cmd (lit "measure")
  then
    ch <~ int_item args 0 ;;
    v <~ lift (measure_voltage ch) ;;
    i <~ lift (measure_current ch) ;;
    p <~ lift (measure_power ch) ;;
    print (lit "CH" ++ str_of_int ch ++ lit ": " ++ format_fixed 4 v ++ lit "V  "
           ++ format_fixed 4 i ++ lit "A  " ++ format_fixed 3 p ++ lit "W") >>
    rret Continue
  else if str_eqb cmd (lit "raw")
  then
    let scpi := join (lit " ") args in
    if contains (lit "?") scpi
    then
      result <~ lift (query scpi) ;;
      print (lit "< " ++ result) >>
      rret Continue
    else
      lift (command scpi) >>
      print (lit "OK") >>
      rret Continue
  else
    print (lit "Unknown command: " ++ cmd ++ lit ". Type 'help' for commands.") >>
    rret Continue.

(** The [except] clauses of the loop, in their order. *)
Definition loop_handler (e : repl_exn) : option (R control) :=
  match e with
  | IndexError =>
      Some (print (lit "Missing arguments. Type 'help' for usage.") >>
            rret Continue)
  | _ =>
      if is_ValueError e
      then Some (print (lit "Invalid value: " ++ message e) >> rret Continue)
      else if is_Exception e
      then Some (print (lit "Error: " ++ message e) >> rret Continue)
      else None
  end.

(** One turn of the [while True] loop, given what [input] produces. *)
Definition turn (ev : in_event) : R control :=
  show (Prompt (lit "rigol> ")) >>
  match ev with
  | Line raw =>
      match strip raw with
      | [] => rret Continue
      | (_ :: _) as line =>
          let parts := split line in
          word <~ item parts 0 ;;
          try_except (execute (lower word) (tl parts)) loop_handler
      end
  | CtrlC | CtrlD =>
      print (LF ++ lit "Bye!") >> rret Break
  end.

(** The loop over what the user types; the end of the input is
    [EOFError].  It returns what it has not read. *)
Fixpoint loop (inputs : list in_event) : R (list in_event) :=
  match inputs with
  | [] => turn CtrlD >> rret []
  | ev :: rest =>
      k <~ turn ev ;;
      match k with
      | Break => rret rest
      | Continue => loop rest
      end
  end.

(** [psu = RigolDP832A(device)]. *)
Definition connect (dev : str) : R unit :=
  fun c =>
    match construct dev (sys (machine c)) (calls (machine c)) with
    | (Ok _, s) => (Returned tt, {| machine := s; screen := screen c |})
    | (Raise e, s) => (Raised (Lib e), {| machine := s; screen := screen c |})
    end.

(** [sys.argv[1] if len(sys.argv) > 1 else DEFAULT_DEVICE]. *)
Definition device_of (argv : list str) : str :=
  match argv with
  | _ :: dev :: _ => dev
  | _ => DEFAULT_DEVICE
  end.

Definition main (argv : list str) (inputs : list in_event) : R (list in_event) :=
  let dev := device_of argv in
  print (lit "Connecting to " ++ dev ++ lit "...") >>
  try_except
    (connect dev >>
     i <~ lift get_idn ;;
     print (lit "Connected: " ++ i ++ LF))
    (fun e =>
       if is_Exception e
       then Some (print (lit "Failed to connect: " ++ message e) >>
                  rraise (SystemExit 1))
       else None) >>
  print (lit "Type 'help' for commands, 'quit' to exit." ++ LF) >>
  loop inputs.

(** The console of a process that has just started. *)
Definition start (w : world) : console :=
  {| machine := {| self := fresh_object; sys := w; calls := [] |};
     screen := [] |}.

(** ** Observations on the front end *)

(** Every exception [m] can end with satisfies [P]. *)
Definition rraises_only {A} (P : repl_exn -> bool) (m : R A) : Prop :=
  forall c e, fst (m c) = Raised e -> P e = true.

Definition not_exit (e : repl_exn) : bool :=
  match e with
  | SystemExit _ => false
  | _ => true
  end.

Definition is_interrupt (e : repl_exn) : bool :=
  match e with
  | Lib KeyboardInterrupt => true
  | _ => false
  end.

Definition interrupt_or_exit (e : repl_exn) : bool :=
  match e with
  | Lib KeyboardInterrupt | SystemExit 1 => true
  | _ => false
  end.


(** [m], run with a client on device path [p], follows the discipline of
    the device channel, keeps the path and leaves no descriptor open. *)
Definition rdisciplined (p : str) {A} (m : R A) : Prop :=
  forall c, device (self (machine c)) = Some p ->
    exists evs,
      past (machine (snd (m c))) = past (machine c) ++ evs /\
      follows_protocol p None evs = true /\
      device (self (machine (snd (m c)))) = Some p /\
      open_handles (machine (snd (m c))) = open_handles (machine c).

(** [m] keeps the object, follows the discipline of the device channel
    and leaves the descriptor table as it found it. *)
Definition tidy {A} (m : M A) : Prop :=
  keeps self m /\ disciplined m /\ keeps open_handles m.

(** ** Stand-ins for the abstract builtins, for concrete runs *)

(** [int] on plain ASCII: an optional sign and decimal digits. *)
Definition ascii_int (t : str) : option Z :=
  let (neg, r) := parse_sign t in
  let (ds, rest) := span_digits r in
  match ds, rest with
  | _ :: _, [] =>
      let v := Z.of_N (digits_value ds) in Some (if neg then (- v)%Z else v)
  | _, _ => None
  end.

(** [lower] on plain ASCII. *)
Definition ascii_lower (t : str) : str := map tolower t.

Definition plain_fixed (n : nat) (x : float_literal) : str := plain_repr x.

Definition quoted (t : str) : str := lit "'" ++ t ++ lit "'".

Definition terse (e : exn) : str :=
  match e with
  | OSError n => lit "[Errno " ++ str_of_int n ++ lit "]"
  | _ => lit "error"
  end.

(** A supply on which everything works but [os.close], which reports
    [EIO]. *)
Definition close_fails : OS :=
  {| on_open := fun _ _ _ => Done 3%Z;
     on_write := fun _ _ d => Done (Z.of_nat (List.length d));
     on_sleep := fun _ _ => false;
     on_read := fun h _ _ => Done (bench_reply (last_written h));
     on_close := fun _ _ => Errno 5%Z |}.

(** The words of the loop that reach the device, and those that end it. *)
Definition device_words : list str :=
  map lit ["status"; "set"; "on"; "off"; "alloff"; "v"; "i"; "measure";
           "raw"]%string.

Definition leaving_words : list str := map lit ["quit"; "exit"; "q"]%string.

Definition is_word (ws : list str) (cmd : str) : bool :=
  existsb (str_eqb cmd) ws.

(** [m] prints nothing. *)
Definition mute {A} (m : R A) : Prop :=
  forall c, screen (snd (m c)) = screen c.

(** [m] has printed nothing when it ends with an exception. *)
Definition silent_on_failure {A} (m : R A) : Prop :=
  forall c e c', m c = (Raised e, c') -> screen c' = screen c.

(** What the loop prints for an exception it catches. *)
Definition report (e : repl_exn) : str :=
  match e with
  | IndexError => lit "Missing arguments. Type 'help' for usage."
  | _ => if is_ValueError e
         then lit "Invalid value: " ++ message e
         else lit "Error: " ++ message e
  end.

(** A device whose replies are not UTF-8. *)
Definition noisy : OS := instrument (fun _ => [xff; x0a]).

(** ** The monad *)

Lemma bind_ok {A B} (m : M A) (k : A -> M B) s a s1 :
  m s = (Ok a, s1) -> bind m k s = k a s1.
Proof. intros E. unfold bind. now rewrite E. Qed.

Lemma bind_raise {A B} (m : M A) (k : A -> M B) s e s1 :
  m s = (Raise e, s1) -> bind m k s = (Raise e, s1).
Proof. intros E. unfold bind. now rewrite E. Qed.

Lemma bind_log {B} (c : call) (k : unit -> M B) s :
  bind (log c) k s
  = k tt {| self := self s; sys := sys s; calls := calls s ++ [c] |}.
Proof. reflexivity. Qed.

Lemma keeps_ret {X A} (f : state -> X) (a : A) : keeps f (ret a).
Proof. intros s. reflexivity. Qed.

Lemma keeps_raise {X A} (f : state -> X) (e : exn) : keeps f (@raise A e).
Proof. intros s. reflexivity. Qed.

Lemma keeps_bind {X A B} (f : state -> X) (m : M A) (k : A -> M B) :
  keeps f m -> (forall a, keeps f (k a)) -> keeps f (bind m k).
Proof.
  intros Hm Hk s. unfold bind. specialize (Hm s).
  destruct (m s) as [[a|e] s1]; simpl in *.
  - now rewrite Hk.
  - exact Hm.
Qed.

Lemma keeps_try_finally {X A} (f : state -> X) (body : M A) (fin : M unit) :
  keeps f body -> keeps f fin -> keeps f (try_finally body fin).
Proof.
  intros Hb Hf s. unfold try_finally. specialize (Hb s).
  destruct (body s) as [r s1]. specialize (Hf s1).
  destruct (fin s1) as [[u|e] s2]; simpl in *; congruence.
Qed.

Lemma keeps_for_each {X A} (f : state -> X) (xs : list A) (body : A -> M unit) :
  (forall x, keeps f (body x)) -> keeps f (for_each xs body).
Proof.
  intros Hb. induction xs as [|x xs IH]; simpl.
  - apply keeps_ret.
  - apply keeps_bind; auto.
Qed.

Lemma keeps_returning {X A} (f : state -> X) (g : A -> value) (m : M A) :
  keeps f m -> keeps f (returning g m).
Proof.
  intros Hm. unfold returning. apply keeps_bind; auto.
  intros a. apply keeps_ret.
Qed.

(** Case analysis on whatever the computation under scrutiny branches on. *)
Ltac branch :=
  match goal with
  | |- context [match ?x with _ => _ end] => destruct x eqn:?
  end.

Ltac primitive :=
  intros; intros ?;
  cbv [get_device get_idn os_open os_write time_sleep os_read os_close
       py_encode py_decode py_float ret raise record_event with_world
       open_handles past];
  repeat branch; reflexivity.

(** *** The primitives and the object *)

Lemma self_log c : keeps self (log c).
Proof. intros s. reflexivity. Qed.

Lemma self_get_device : keeps self get_device.
Proof. primitive. Qed.

Lemma self_get_idn : keeps self get_idn.
Proof. primitive. Qed.

Lemma self_os_open p f : keeps self (os_open p f).
Proof. primitive. Qed.

Lemma self_os_write fd d : keeps self (os_write fd d).
Proof. primitive. Qed.

Lemma self_time_sleep ms : keeps self (time_sleep ms).
Proof. primitive. Qed.

Lemma self_os_read fd n : keeps self (os_read fd n).
Proof. primitive. Qed.

Lemma self_os_close fd : keeps self (os_close fd).
Proof. primitive. Qed.

Lemma any_py_encode {X} (f : state -> X) t : keeps f (py_encode t).
Proof. primitive. Qed.

Lemma any_py_decode {X} (f : state -> X) b : keeps f (py_decode b).
Proof. primitive. Qed.

Lemma any_py_float {X} (f : state -> X) t : keeps f (py_float t).
Proof. primitive. Qed.

(** *** The primitives and the ghost log *)

Lemma calls_get_device : keeps calls get_device.
Proof. primitive. Qed.

Lemma calls_get_idn : keeps calls get_idn.
Proof. primitive. Qed.

Lemma calls_os_open p f : keeps calls (os_open p f).
Proof. primitive. Qed.

Lemma calls_os_write fd d : keeps calls (os_write fd d).
Proof. primitive. Qed.

Lemma calls_time_sleep ms : keeps calls (time_sleep ms).
Proof. primitive. Qed.

Lemma calls_os_read fd n : keeps calls (os_read fd n).
Proof. primitive. Qed.

Lemma calls_os_close fd : keeps calls (os_close fd).
Proof. primitive. Qed.

(** *** The primitives and the descriptor table *)

Lemma handles_os_write fd d : keeps open_handles (os_write fd d).
Proof. primitive. Qed.

Lemma handles_time_sleep ms : keeps open_handles (time_sleep ms).
Proof. primitive. Qed.

Lemma handles_os_read fd n : keeps open_handles (os_read fd n).
Proof. primitive. Qed.

Create HintDb frame.

#[local] Hint Resolve keeps_ret keeps_raise keeps_for_each keeps_returning
  self_log self_get_device self_get_idn self_os_open self_os_write
  self_time_sleep self_os_read self_os_close any_py_encode any_py_decode
  any_py_float calls_get_device calls_get_idn calls_os_open calls_os_write
  calls_time_sleep calls_os_read calls_os_close handles_os_write
  handles_time_sleep handles_os_read : frame.

Ltac frame :=
  repeat first
    [ apply keeps_bind; [ | intros ? ]
    | apply keeps_try_finally
    | solve [ auto with frame ] ].

(** ** What the methods leave alone *)

Lemma self_command cmd : keeps self (command cmd).
Proof. unfold command. frame. Qed.

Lemma self_query cmd : keeps self (query cmd).
Proof. unfold query. frame. Qed.

#[local] Hint Resolve self_command self_query : frame.

Lemma calls_logged {A} c (m : M A) :
  keeps calls m -> forall s, calls (snd ((log c ;; m) s)) = calls s ++ [c].
Proof. intros K s. rewrite bind_log. now rewrite K. Qed.

Lemma calls_command cmd s :
  calls (snd (command cmd s)) = calls s ++ [Send cmd].
Proof. unfold command. apply calls_logged. frame. Qed.

Lemma calls_query cmd s :
  calls (snd (query cmd s)) = calls s ++ [Query cmd].
Proof. unfold query. apply calls_logged. frame. Qed.

(** *** Scoped use of the descriptor *)

Lemma handles_log c : keeps open_handles (log c).
Proof. intros s. reflexivity. Qed.

Lemma handles_get_device : keeps open_handles get_device.
Proof. primitive. Qed.

Lemma past_log c : keeps past (log c).
Proof. intros s. reflexivity. Qed.

Lemma past_get_device : keeps past get_device.
Proof. primitive. Qed.

#[local] Hint Resolve handles_log handles_get_device past_log past_get_device
  : frame.

Lemma remove_one_head fd l : remove_one fd (fd :: l) = l.
Proof. simpl. now rewrite Z.eqb_refl. Qed.

Lemma handles_scoped {A} path flags (body : Z -> M A) :
  (forall fd, keeps open_handles (body fd)) ->
  keeps open_handles
    (fd <- os_open path flags ;; try_finally (body fd) (os_close fd)).
Proof.
  intros K s. unfold bind, os_open.
  destruct (on_open os (history (sys s)) path flags) as [fd|e|] eqn:E.
  - unfold try_finally.
    match goal with |- context [body fd ?s0] =>
      specialize (K fd s0); destruct (body fd s0) as [r s1] end.
    unfold os_close.
    destruct (on_close os (history (sys s1)) fd);
      simpl in *; unfold open_handles in K; simpl in K; rewrite K;
      apply remove_one_head.
  - reflexivity.
  - reflexivity.
Qed.

Lemma handles_command cmd : keeps open_handles (command cmd).
Proof.
  unfold command. apply keeps_bind; [auto with frame|intros _].
  apply keeps_bind; [auto with frame|intros path].
  apply handles_scoped. intros fd. frame.
Qed.

Lemma handles_query cmd : keeps open_handles (query cmd).
Proof.
  unfold query. apply keeps_bind; [auto with frame|intros _].
  apply keeps_bind; [auto with frame|intros path].
  apply handles_scoped. intros fd. frame.
Qed.

Lemma quiet_ret {A} (a : A) : quiet (ret a).
Proof. intros s. exists []. simpl. now rewrite app_nil_r. Qed.

Lemma quiet_raise {A} e : quiet (@raise A e).
Proof. intros s. exists []. simpl. now rewrite app_nil_r. Qed.

Lemma quiet_bind {A B} (m : M A) (k : A -> M B) :
  quiet m -> (forall a, quiet (k a)) -> quiet (bind m k).
Proof.
  intros Hm Hk s. unfold bind. destruct (Hm s) as (e1 & E1 & Q1).
  destruct (m s) as [[a|e] s1]; simpl in *.
  - destruct (Hk a s1) as (e2 & E2 & Q2). exists (e1 ++ e2). split.
    + rewrite E2, E1. now rewrite app_assoc.
    + rewrite forallb_app. now rewrite Q1, Q2.
  - exists e1. now split.
Qed.

Lemma quiet_py_encode t : quiet (py_encode t).
Proof. unfold py_encode. destruct (encode t); [apply quiet_ret|apply quiet_raise]. Qed.

Lemma quiet_py_decode b : quiet (py_decode b).
Proof. unfold py_decode. destruct (decode b); [apply quiet_ret|apply quiet_raise]. Qed.

Lemma quiet_os_write fd d : quiet (os_write fd d).
Proof.
  intros s. exists [EvWrite fd d (on_write os (history (sys s)) fd d)].
  split; [|reflexivity]. unfold os_write. now branch.
Qed.

Lemma quiet_time_sleep ms : quiet (time_sleep ms).
Proof.
  intros s. exists [EvSleep ms (on_sleep os (history (sys s)) ms)].
  split; [|reflexivity]. unfold time_sleep. now branch.
Qed.

Lemma quiet_os_read fd n : quiet (os_read fd n).
Proof.
  intros s. exists [EvRead fd n (on_read os (history (sys s)) fd n)].
  split; [|reflexivity]. unfold os_read. now branch.
Qed.

Ltac quiet_tac :=
  repeat first
    [ apply quiet_bind; [ | intros ? ]
    | apply quiet_ret | apply quiet_py_encode | apply quiet_py_decode
    | apply quiet_os_write | apply quiet_time_sleep | apply quiet_os_read ].

Lemma events_since_app s s' evs :
  past s' = past s ++ evs -> events_since s s' = evs.
Proof.
  unfold events_since, past. intros ->.
  induction (history (sys s)) as [|e h IH]; simpl; auto.
Qed.

Lemma closes_last_quiet fd evs r :
  forallb (fun e => negb (is_open_or_close e)) evs = true ->
  closes_last fd (evs ++ [EvClose fd r]) = true.
Proof.
  induction evs as [|e evs IH]; simpl; intros Q.
  - apply Z.eqb_refl.
  - apply andb_prop in Q. destruct Q as [Qe Q]. specialize (IH Q).
    destruct e; simpl in Qe; try discriminate;
      (destruct (evs ++ [EvClose fd r]) eqn:E;
       [destruct evs; discriminate | exact IH]).
Qed.

Lemma scoped_open_close {A} path flags (body : Z -> M A) s :
  (forall fd, quiet (body fd)) ->
  scoped (events_since s
            (snd ((fd <- os_open path flags ;;
                   try_finally (body fd) (os_close fd)) s))) = true.
Proof.
  intros Q. unfold bind, os_open.
  destruct (on_open os (history (sys s)) path flags) as [fd|e|] eqn:E.
  - unfold try_finally.
    match goal with |- context [body fd ?s0] =>
      destruct (Q fd s0) as (evs & Ev & Qv); destruct (body fd s0) as [r s1] end.
    unfold os_close.
    set (c := on_close os (history (sys s1)) fd).
    rewrite (@events_since_app s _
               (EvOpen path flags (Done fd) :: evs ++ [EvClose fd c])).
    + simpl. now apply closes_last_quiet.
    + unfold past in *. simpl in Ev.
      destruct c; simpl; rewrite Ev; rewrite <- !app_assoc; reflexivity.
  - now rewrite (@events_since_app s _ [EvOpen path flags (Errno e)]).
  - now rewrite (@events_since_app s _ [EvOpen path flags Interrupted]).
Qed.

Lemma events_since_past s s1 s2 :
  past s1 = past s -> events_since s s2 = events_since s1 s2.
Proof. unfold events_since, past. now intros ->. Qed.

Lemma scoped_after_prologue {A} c (m : str -> M A) s :
  (forall path s0, scoped (events_since s0 (snd (m path s0))) = true) ->
  scoped (events_since s (snd ((log c ;; path <- get_device ;; m path) s)))
  = true.
Proof.
  intros H. rewrite bind_log. unfold bind, get_device. simpl.
  destruct (device (self s)) as [path|].
  - match goal with |- context [m path ?s0] =>
      rewrite (@events_since_past s s0) by reflexivity end.
    apply H.
  - now rewrite (@events_since_app s _ []) by (simpl; now rewrite app_nil_r).
Qed.

Lemma scoped_command cmd s :
  scoped (events_since s (snd (command cmd s))) = true.
Proof.
  unfold command. apply scoped_after_prologue. intros path s0.
  apply scoped_open_close. intros fd. quiet_tac.
Qed.

Lemma scoped_query cmd s :
  scoped (events_since s (snd (query cmd s))) = true.
Proof.
  unfold query. apply scoped_after_prologue. intros path s0.
  apply scoped_open_close. intros fd. quiet_tac.
Qed.

(** ** Frame: the object is never touched after construction *)

Lemma self_status ch : keeps self (status ch).
Proof.
  unfold status, get_output, get_voltage_setpoint, get_current_setpoint,
    measure_voltage, measure_current, measure_power.
  frame.
Qed.

Lemma self_all_off : keeps self all_off.
Proof. unfold all_off. apply keeps_for_each. intros ch. apply self_command. Qed.

Lemma self_configure ch v c o : keeps self (configure ch v c o).
Proof.
  unfold configure, set_voltage, set_current, output_on.
  destruct o; frame.
Qed.

Lemma self_repr : keeps self __repr__.
Proof. unfold __repr__. frame. Qed.

(** C10. Every operation of a constructed client (raw [command] and
    [query], output control, setpoints, measurements, protection, [status],
    [all_off], [configure], [__repr__]) ends, normally or with an exception,
    with the object's attributes [device] and [idn] exactly as it found
    them. *)
Theorem operations_keep_device_and_idn (m : method) (s : state) :
  self (snd (call_method m s)) = self s.
Proof.
  revert s. change (keeps self (call_method m)).
  destruct m; cbn [call_method]; apply keeps_returning;
    [ apply self_command
    | apply self_query
    | unfold output_on; frame
    | unfold output_off; frame
    | unfold get_output; frame
    | unfold set_voltage; frame
    | unfold get_voltage_setpoint; frame
    | unfold measure_voltage; frame
    | unfold set_current; frame
    | unfold get_current_setpoint; frame
    | unfold measure_current; frame
    | unfold measure_power; frame
    | unfold set_ovp; frame
    | unfold set_ocp; frame
    | apply self_status
    | apply self_all_off
    | apply self_configure
    | apply self_repr ].
Qed.

(** C7. In [command] (the spec's [send]) and in [query], for every
    behaviour of the device and on every exit path (failed write,
    interrupted delay, failed read, undecodable reply, failing close, or
    success), the descriptor table is afterwards what it was before, and the
    system calls made are a scoped use: either [os.open] failed, or the
    descriptor it returned is closed by the last call made. *)
Theorem handle_released_on_every_exit_path (cmd : str) (s : state) :
  (open_handles (snd (command cmd s)) = open_handles s /\
   scoped (events_since s (snd (command cmd s))) = true) /\
  (open_handles (snd (query cmd s)) = open_handles s /\
   scoped (events_since s (snd (query cmd s))) = true).
Proof.
  repeat split.
  - apply handles_command.
  - apply scoped_command.
  - apply handles_query.
  - apply scoped_query.
Qed.

(** ** Sequences of sends *)

Lemma calls_after {A} (m : M A) c s r s1 :
  (forall s0, calls (snd (m s0)) = calls s0 ++ [c]) ->
  m s = (r, s1) -> calls s1 = calls s ++ [c].
Proof. intros H E. specialize (H s). now rewrite E in H. Qed.

Arguments calls_after {A m c s r s1} _ _.

Lemma two_commands a b s :
  (forall s1, command a s = (Ok tt, s1) ->
     (command a ;; command b) s = command b s1 /\
     calls (snd ((command a ;; command b) s)) = calls s ++ [Send a; Send b]) /\
  (forall e s1, command a s = (Raise e, s1) ->
     (command a ;; command b) s = (Raise e, s1) /\
     calls s1 = calls s ++ [Send a]).
Proof.
  split.
  - intros s1 E. rewrite (bind_ok _ _ _ E). split; [reflexivity|].
    rewrite calls_command.
    rewrite (calls_after (calls_command a) E).
    now rewrite <- app_assoc.
  - intros e s1 E. rewrite (bind_raise _ _ _ E). split; [reflexivity|].
    apply (calls_after (calls_command a) E).
Qed.

(** C8. For every channel and threshold, [set_ovp] and [set_ocp] first
    send the command that sets the threshold and then the command that
    enables the protection: when the first send returns, exactly these two
    sends have been issued, in this order, and the outcome is the second
    send's; the second send is missing only when the first one raised, and
    then its exception is the outcome. *)
Theorem protection_sets_threshold_then_enables (channel : Z) (x : float) (s : state) :
  let ovp_val := lit ":OUTP:OVP:VAL CH" ++ str_of_int channel ++ lit "," ++ repr_float x in
  let ovp_on := lit ":OUTP:OVP CH" ++ str_of_int channel ++ lit ",ON" in
  let ocp_val := lit ":OUTP:OCP:VAL CH" ++ str_of_int channel ++ lit "," ++ repr_float x in
  let ocp_on := lit ":OUTP:OCP CH" ++ str_of_int channel ++ lit ",ON" in
  ((forall s1, command ovp_val s = (Ok tt, s1) ->
      set_ovp channel x s = command ovp_on s1 /\
      calls (snd (set_ovp channel x s)) = calls s ++ [Send ovp_val; Send ovp_on]) /\
   (forall e s1, command ovp_val s = (Raise e, s1) ->
      set_ovp channel x s = (Raise e, s1) /\
      calls s1 = calls s ++ [Send ovp_val])) /\
  ((forall s1, command ocp_val s = (Ok tt, s1) ->
      set_ocp channel x s = command ocp_on s1 /\
      calls (snd (set_ocp channel x s)) = calls s ++ [Send ocp_val; Send ocp_on]) /\
   (forall e s1, command ocp_val s = (Raise e, s1) ->
      set_ocp channel x s = (Raise e, s1) /\
      calls s1 = calls s ++ [Send ocp_val])).
Proof.
  intros. split; apply two_commands.
Qed.

(** C9. For every channel, voltage and current, [configure] sends the
    voltage setpoint first and the current setpoint second; the
    output-enable send follows only when the flag is true.  With the flag
    false (its default) the sends issued are these two and nothing else, so
    no output-state command reaches the device; a send that raises ends the
    operation with its exception. *)
Theorem configure_sends_voltage_current_then_optional_on
    (channel : Z) (v c : float) (s : state) :
  let volt := lit ":SOUR" ++ str_of_int channel ++ lit ":VOLT " ++ repr_float v in
  let curr := lit ":SOUR" ++ str_of_int channel ++ lit ":CURR " ++ repr_float c in
  let on := lit ":OUTP CH" ++ str_of_int channel ++ lit ",ON" in
  (forall s1 s2,
      set_voltage channel v s = (Ok tt, s1) ->
      set_current channel c s1 = (Ok tt, s2) ->
      (configure channel v c false s = (Ok tt, s2) /\
       calls s2 = calls s ++ [Send volt; Send curr]) /\
      (configure channel v c true s = output_on channel s2 /\
       calls (snd (configure channel v c true s))
       = calls s ++ [Send volt; Send curr; Send on])) /\
  (forall o e s1,
      set_voltage channel v s = (Raise e, s1) ->
      configure channel v c o s = (Raise e, s1) /\
      calls s1 = calls s ++ [Send volt]) /\
  (forall o s1 e s2,
      set_voltage channel v s = (Ok tt, s1) ->
      set_current channel c s1 = (Raise e, s2) ->
      configure channel v c o s = (Raise e, s2) /\
      calls s2 = calls s ++ [Send volt; Send curr]) /\
  configure_default channel v c s = configure channel v c false s.
Proof.
  intros volt curr on.
  assert (Cv : forall r s1, set_voltage channel v s = (r, s1) ->
                            calls s1 = calls s ++ [Send volt]).
  { intros r s1 E. apply (calls_after (calls_command volt) E). }
  assert (Cc : forall r s1 s2, calls s1 = calls s ++ [Send volt] ->
                 set_current channel c s1 = (r, s2) ->
                 calls s2 = calls s ++ [Send volt; Send curr]).
  { intros r s1 s2 E1 E.
    rewrite (calls_after (calls_command curr) E), E1.
    now rewrite <- app_assoc. }
  split; [|split; [|split]].
  - intros s1 s2 E1 E2.
    assert (G : forall o, configure channel v c o s
                          = (if o then output_on channel else ret tt) s2).
    { intros o. unfold configure.
      now rewrite (bind_ok _ _ _ E1), (bind_ok _ _ _ E2). }
    pose proof (Cc _ _ _ (Cv _ _ E1) E2) as C2.
    rewrite !G. repeat split; auto.
    unfold output_on. rewrite calls_command, C2. now rewrite <- app_assoc.
  - intros o e s1 E1. unfold configure. rewrite (bind_raise _ _ _ E1). eauto.
  - intros o s1 e s2 E1 E2. unfold configure.
    rewrite (bind_ok _ _ _ E1), (bind_raise _ _ _ E2). eauto.
  - reflexivity.
Qed.

(** ** Text *)

Lemma N_list_eqb_eq a : forall b, N_list_eqb a b = true <-> a = b.
Proof.
  induction a as [|x a IH]; intros [|y b]; simpl; split; intros H;
    try reflexivity; try discriminate.
  - apply andb_prop in H. destruct H as [Hx Hr].
    apply N.eqb_eq in Hx. apply IH in Hr. now subst.
  - injection H as -> ->. rewrite N.eqb_refl. now apply IH.
Qed.

Lemma str_eqb_eq a b : str_eqb a b = true <-> a = b.
Proof. apply N_list_eqb_eq. Qed.

Lemma drop_while_head p s c t : drop_while p s = c :: t -> p c = false.
Proof.
  induction s as [|x s IH]; simpl; [discriminate|].
  destruct (p x) eqn:Px; [exact IH|].
  intros H. injection H as -> _. exact Px.
Qed.

Lemma drop_while_suffix p s : exists pre, s = pre ++ drop_while p s.
Proof.
  induction s as [|x s [pre IH]]; simpl.
  - now exists [].
  - destruct (p x).
    + exists (x :: pre). simpl. now f_equal.
    + now exists [].
Qed.

Lemma rstrip_last s t c : rstrip s = t ++ [c] -> isspace c = false.
Proof.
  unfold rstrip. intros H. apply (f_equal (@rev N)) in H.
  rewrite rev_involutive, rev_app_distr in H. simpl in H.
  eapply drop_while_head; exact H.
Qed.

Lemma rstrip_prefix s : exists suf, s = rstrip s ++ suf.
Proof.
  unfold rstrip. destruct (drop_while_suffix isspace (rev s)) as [pre H].
  exists (rev pre). rewrite <- rev_app_distr, <- H. now rewrite rev_involutive.
Qed.

Lemma strip_trimmed s : trimmed (strip s).
Proof.
  unfold strip. split.
  - intros c t H. destruct (rstrip_prefix (lstrip s)) as [suf P].
    rewrite H in P. simpl in P. eapply drop_while_head; exact P.
  - intros t c H. eapply rstrip_last; exact H.
Qed.

Lemma strip_no_trailing_newline s t : strip s <> t ++ LF.
Proof.
  intros H. destruct (strip_trimmed s) as [_ T].
  specialize (T _ _ H). discriminate.
Qed.

(** ** The exchange with the device *)

Lemma run_get_device s path :
  device (self s) = Some path -> get_device s = (Ok path, s).
Proof. unfold get_device. now intros ->. Qed.

Lemma run_py_encode t data s :
  encode t = Some data -> py_encode t s = (Ok data, s).
Proof. unfold py_encode. now intros ->. Qed.

Lemma run_py_decode bs t s :
  decode bs = Some t -> py_decode bs s = (Ok t, s).
Proof. unfold py_decode. now intros ->. Qed.

Lemma run_os_open s path flags fd :
  on_open os (past s) path flags = Done fd ->
  os_open path flags s
  = (Ok fd, record_event s (EvOpen path flags (Done fd)) (fd :: open_handles s)).
Proof. unfold os_open, past. now intros ->. Qed.

Lemma run_os_write s fd data n :
  on_write os (past s) fd data = Done n ->
  os_write fd data s
  = (Ok n, record_event s (EvWrite fd data (Done n)) (open_handles s)).
Proof. unfold os_write, past. now intros ->. Qed.

Lemma run_time_sleep s ms :
  on_sleep os (past s) ms = false ->
  time_sleep ms s = (Ok tt, record_event s (EvSleep ms false) (open_handles s)).
Proof. unfold time_sleep, past. now intros ->. Qed.

Lemma run_os_read s fd n bs :
  on_read os (past s) fd n = Done bs ->
  os_read fd n s
  = (Ok (firstn (N.to_nat n) bs),
     record_event s (EvRead fd n (Done bs)) (open_handles s)).
Proof. unfold os_read, past. now intros ->. Qed.

Lemma run_os_close s fd :
  on_close os (past s) fd = Done tt ->
  os_close fd s
  = (Ok tt, record_event s (EvClose fd (Done tt)) (remove_one fd (open_handles s))).
Proof. unfold os_close, past. now intros ->. Qed.

(** C5. For any reply that is well-formed text: when the device file
    opens, takes the write, is not interrupted, answers the read with
    [reply] and closes, [query] makes exactly these calls (it writes the
    UTF-8 encoding of the command followed by one line feed, waits, asks for
    up to 4096 bytes), and returns the decoding of the bytes read with the
    whitespace at both ends removed; what it returns neither begins nor
    ends with whitespace, so it does not end in a newline. *)
Theorem query_returns_trimmed_reply
    (cmd : str) (s : state) (path : str) (fd : Z) (data : bytes) (n : Z)
    (reply : bytes) (text : str) :
  device (self s) = Some path ->
  encode (cmd ++ LF) = Some data ->
  answers (past s) (exchange path fd data n reply) ->
  decode (firstn (N.to_nat 4096) reply) = Some text ->
  exists s',
    query cmd s = (Ok (strip text), s') /\
    past s' = past s ++ exchange path fd data n reply /\
    trimmed (strip text) /\
    (forall t, strip text <> t ++ LF).
Proof.
  intros D E (A1 & A2 & A3 & A4 & A5 & _) T.
  eexists. split; [|split; [|split]].
  - unfold query. rewrite bind_log.
    erewrite bind_ok by (apply run_get_device; exact D).
    erewrite bind_ok by (apply run_os_open; exact A1).
    unfold try_finally.
    erewrite bind_ok by (apply run_py_encode; exact E).
    erewrite bind_ok by (apply run_os_write; exact A2).
    erewrite bind_ok by (apply run_time_sleep; exact A3).
    erewrite bind_ok by (apply run_os_read; exact A4).
    erewrite bind_ok by (apply run_py_decode; exact T).
    unfold ret.
    erewrite run_os_close by exact A5.
    reflexivity.
  - unfold past, exchange. simpl. now rewrite <- !app_assoc.
  - apply strip_trimmed.
  - apply strip_no_trailing_newline.
Qed.

Lemma raises_only_ret {A} P (a : A) : raises_only P (ret a).
Proof. intros s e H. discriminate. Qed.

Lemma raises_only_raise {A} (P : exn -> bool) e :
  P e = true -> raises_only P (@raise A e).
Proof. intros Pe s e' H. simpl in H. now injection H as <-. Qed.

Lemma raises_only_bind {A B} P (m : M A) (k : A -> M B) :
  raises_only P m -> (forall a, raises_only P (k a)) -> raises_only P (bind m k).
Proof.
  intros Hm Hk s e. unfold bind. specialize (Hm s).
  destruct (m s) as [[a|e'] s1]; simpl in *.
  - apply Hk.
  - intros H. injection H as <-. now apply Hm.
Qed.

Lemma raises_only_try_finally {A} P (body : M A) (fin : M unit) :
  raises_only P body -> raises_only P fin -> raises_only P (try_finally body fin).
Proof.
  intros Hb Hf s e. unfold try_finally. specialize (Hb s).
  destruct (body s) as [r s1]. specialize (Hf s1).
  destruct (fin s1) as [[u|e'] s2]; simpl in *.
  - apply Hb.
  - intros H. injection H as <-. now apply Hf.
Qed.

Ltac io_primitive :=
  intros s e;
  cbv [get_device os_open os_write time_sleep os_read os_close
       py_encode py_decode ret raise record_event with_world log];
  repeat branch; simpl; intros H; try discriminate;
  injection H as <-; reflexivity.

Lemma io_log c : raises_only io_failure (log c).
Proof. io_primitive. Qed.

Lemma io_get_device : raises_only io_failure get_device.
Proof. io_primitive. Qed.

Lemma io_os_open p f : raises_only io_failure (os_open p f).
Proof. io_primitive. Qed.

Lemma io_os_write fd d : raises_only io_failure (os_write fd d).
Proof. io_primitive. Qed.

Lemma io_time_sleep ms : raises_only io_failure (time_sleep ms).
Proof. io_primitive. Qed.

Lemma io_os_read fd n : raises_only io_failure (os_read fd n).
Proof. io_primitive. Qed.

Lemma io_os_close fd : raises_only io_failure (os_close fd).
Proof. io_primitive. Qed.

Lemma io_py_encode t : raises_only io_failure (py_encode t).
Proof. io_primitive. Qed.

Lemma io_py_decode b : raises_only io_failure (py_decode b).
Proof. io_primitive. Qed.

Ltac io_tac :=
  repeat first
    [ apply raises_only_bind; [ | intros ? ]
    | apply raises_only_try_finally
    | apply raises_only_ret
    | apply io_log | apply io_get_device | apply io_os_open
    | apply io_os_write | apply io_time_sleep | apply io_os_read
    | apply io_os_close | apply io_py_encode | apply io_py_decode ].

Lemma io_command cmd : raises_only io_failure (command cmd).
Proof. unfold command. io_tac. Qed.

Lemma io_query cmd : raises_only io_failure (query cmd).
Proof. unfold query. io_tac. Qed.

(** ** Parsing replies *)

(** C6. For every channel, [get_output] is true exactly when the text
    [query] returned, which is the trimmed reply, is the two characters
    [ON]; any other text gives false.  It adds no failure of its own: an
    exception of [get_output] is an exception of the query, and never a
    [ValueError]. *)
Theorem get_output_is_exact_match_on_ON (ch : Z) (s : state) :
  let q := lit ":OUTP? CH" ++ str_of_int ch in
  (forall r s1, query q s = (Ok r, s1) ->
     get_output ch s = (Ok (str_eqb r (lit "ON")), s1) /\
     (str_eqb r (lit "ON") = true <-> r = lit "ON")) /\
  (forall e s1, query q s = (Raise e, s1) ->
     get_output ch s = (Raise e, s1)) /\
  (forall t, fst (get_output ch s) <> Raise (ValueError t)).
Proof.
  intros q. split; [|split].
  - intros r s1 E. split; [|apply str_eqb_eq].
    unfold get_output. now rewrite (bind_ok _ _ _ E).
  - intros e s1 E. unfold get_output. now rewrite (bind_raise _ _ _ E).
  - intros t H. unfold get_output, bind in H. fold q in H.
    destruct (query q s) as [[r|e] s1] eqn:E; simpl in H; [discriminate|].
    injection H as ->.
    assert (F : fst (query q s) = Raise (ValueError t)) by now rewrite E.
    apply io_query in F. discriminate.
Qed.

(** C3. For every channel and each of the five numeric readings (voltage
    and current setpoint, measured voltage, current and power): when the
    query returns a text that [float] does not accept, the operation raises
    [ValueError] (the spec's [ParseError]) carrying that very text, and
    returns no number at all.  The text [ERR] is such a text. *)
Theorem malformed_number_raises_with_text
    (ch : Z) (cmd : str) (op : M float) (s : state) (r : str) (s1 : state) :
  In (cmd, op) (float_queries ch) ->
  query cmd s = (Ok r, s1) ->
  float_of_str r = None ->
  op s = (Raise (ValueError r), s1) /\
  (forall x s2, op s <> (Ok x, s2)) /\
  float_of_str (lit "ERR") = None.
Proof.
  intros HIn Q P.
  assert (R : op s = (Raise (ValueError r), s1)).
  { simpl in HIn.
    repeat (destruct HIn as [H|HIn]; [injection H as <- <- |]);
      try contradiction;
      cbv [get_voltage_setpoint measure_voltage get_current_setpoint
           measure_current measure_power];
      rewrite (bind_ok _ _ _ Q); unfold py_float; now rewrite P. }
  split; [exact R|]. split; [|reflexivity].
  intros x s2 H. rewrite R in H. discriminate.
Qed.

(** ** Construction *)

(** C4. Construction issues one query, the identification query, and
    nothing else.  When that query returns an identity, construction fails
    with [ConnectionError] if and only if the identity contains neither
    [RIGOL] nor [DP8]; on that failure the machine is left as the query left
    it, and on success the identity is stored in the object next to the
    device path.  When the query itself fails, its exception is the
    outcome. *)
Theorem construction_checks_identity (dev : str) (w : world) (cs : list call) :
  let s0 := {| self := {| device := Some dev; idn := None |};
               sys := w; calls := cs |} in
  calls (snd (construct dev w cs)) = cs ++ [Query (lit "*IDN?")] /\
  (forall i s1, query (lit "*IDN?") s0 = (Ok i, s1) ->
     ((exists msg, fst (construct dev w cs) = Raise (ConnectionError msg)) <->
      (contains (lit "RIGOL") i = false /\ contains (lit "DP8") i = false)) /\
     (contains (lit "RIGOL") i = false /\ contains (lit "DP8") i = false ->
      construct dev w cs
      = (Raise (ConnectionError (lit "Unexpected device response: " ++ i)), s1)) /\
     (contains (lit "RIGOL") i = true \/ contains (lit "DP8") i = true ->
      construct dev w cs
      = (Ok {| device := Some dev; idn := Some i |},
         {| self := {| device := Some dev; idn := Some i |};
            sys := sys s1; calls := calls s1 |}))) /\
  (forall e s1, query (lit "*IDN?") s0 = (Raise e, s1) ->
     construct dev w cs = (Raise e, s1)).
Proof.
  intros s0.
  assert (U : construct dev w cs
              = match query (lit "*IDN?") s0 with
                | (Ok i, s1) =>
                    if negb (contains (lit "RIGOL") i) && negb (contains (lit "DP8") i)
                    then (Raise (ConnectionError
                                   (lit "Unexpected device response: " ++ i)), s1)
                    else (Ok {| device := device (self s1); idn := Some i |},
                          {| self := {| device := device (self s1); idn := Some i |};
                             sys := sys s1; calls := calls s1 |})
                | (Raise e, s1) => (Raise e, s1)
                end).
  { unfold construct.
    change (__init__ dev _) with (_verify_connection s0).
    unfold _verify_connection, bind. destruct (query (lit "*IDN?") s0) as [[i|e] s1]; [|reflexivity].
    destruct (negb (contains (lit "RIGOL") i) && negb (contains (lit "DP8") i));
      reflexivity. }
  split; [|split].
  - rewrite U. pose proof (calls_query (lit "*IDN?") s0) as C.
    destruct (query (lit "*IDN?") s0) as [[i|e] s1]; simpl in C; [|exact C].
    destruct (negb _ && negb _); exact C.
  - intros i s1 Q. rewrite U, Q.
    pose proof (self_query (lit "*IDN?") s0) as F. rewrite Q in F. simpl in F.
    rewrite F. simpl.
    destruct (contains (lit "RIGOL") i), (contains (lit "DP8") i); simpl;
      (split; [split; [intros [msg H]; try discriminate; now split
                      |intros [H1 H2]; try discriminate; eauto]
              |split; [intros [H1 H2]; try discriminate; reflexivity
                      |intros [H|H]; try discriminate; reflexivity]]).
  - intros e s1 Q. now rewrite U, Q.
Qed.

(** ** [status] and [all_off] *)

Lemma calls_query_then {A} q (k : str -> M A) :
  (forall r, keeps calls (k r)) ->
  forall s, calls (snd ((r <- query q ;; k r) s)) = calls s ++ [Query q].
Proof.
  intros K s. unfold bind. pose proof (calls_query q s) as C.
  destruct (query q s) as [[r|e] s1]; simpl in C; [|exact C].
  now rewrite K.
Qed.

Lemma calls_get_output ch s :
  calls (snd (get_output ch s)) = calls s ++ [Query (lit ":OUTP? CH" ++ str_of_int ch)].
Proof. unfold get_output. apply calls_query_then. intros r. frame. Qed.

Lemma calls_float_query q s :
  calls (snd ((r <- query q ;; py_float r) s)) = calls s ++ [Query q].
Proof. apply calls_query_then. intros r. frame. Qed.

Lemma calls_get_voltage_setpoint ch s :
  calls (snd (get_voltage_setpoint ch s))
  = calls s ++ [Query (lit ":SOUR" ++ str_of_int ch ++ lit ":VOLT?")].
Proof. apply calls_float_query. Qed.

Lemma calls_get_current_setpoint ch s :
  calls (snd (get_current_setpoint ch s))
  = calls s ++ [Query (lit ":SOUR" ++ str_of_int ch ++ lit ":CURR?")].
Proof. apply calls_float_query. Qed.

Lemma calls_measure_voltage ch s :
  calls (snd (measure_voltage ch s))
  = calls s ++ [Query (lit ":MEAS:VOLT? CH" ++ str_of_int ch)].
Proof. apply calls_float_query. Qed.

Lemma calls_measure_current ch s :
  calls (snd (measure_current ch s))
  = calls s ++ [Query (lit ":MEAS:CURR? CH" ++ str_of_int ch)].
Proof. apply calls_float_query. Qed.

Lemma calls_measure_power ch s :
  calls (snd (measure_power ch s))
  = calls s ++ [Query (lit ":MEAS:POWE? CH" ++ str_of_int ch)].
Proof. apply calls_float_query. Qed.

Lemma calls_output_off ch s :
  calls (snd (output_off ch s)) = calls s ++ [off_send ch].
Proof. apply calls_command. Qed.

Lemma bind_ret_tt (m : M unit) s : (m ;; ret tt) s = m s.
Proof. unfold bind, ret. now destruct (m s) as [[[]|e] s1]. Qed.

(** Collect the log equations of the steps taken so far. *)
Ltac chain_calls :=
  repeat match goal with
         | H : calls _ = _ |- _ => rewrite H; clear H
         end;
  rewrite <- ?app_assoc; reflexivity.

(** [status] stopped by the exception of its [k]-th query. *)
Ltac status_stops k :=
  unfold status;
  repeat (erewrite bind_ok by eassumption);
  erewrite bind_raise by eassumption;
  split;
  [ exists k; split; [lia | simpl; chain_calls]
  | intros ? ? H; discriminate H ].

(** C1, as the code has it.  [status] makes six queries, one after the
    other: output state, voltage setpoint, current setpoint, measured
    voltage, measured current, measured power.  It stops at the first one
    that raises, so the queries made are always the first [k] of the six,
    with [k] at least one; when it returns a record, all six were made, each
    from the state the previous one left, and the record holds the channel
    number and their six results. *)
Theorem status_makes_six_queries (ch : Z) (s : state) :
  (exists k, (1 <= k <= 6)%nat /\
     calls (snd (status ch s)) = calls s ++ firstn k (status_queries ch)) /\
  (forall st s', status ch s = (Ok st, s') ->
     calls s' = calls s ++ status_queries ch /\
     channel st = ch /\
     exists s1 s2 s3 s4 s5,
       get_output ch s = (Ok (output st), s1) /\
       get_voltage_setpoint ch s1 = (Ok (voltage_set st), s2) /\
       get_current_setpoint ch s2 = (Ok (current_set st), s3) /\
       measure_voltage ch s3 = (Ok (voltage st), s4) /\
       measure_current ch s4 = (Ok (current st), s5) /\
       measure_power ch s5 = (Ok (power st), s')).
Proof.
  pose proof (calls_get_output ch s) as C1.
  destruct (get_output ch s) as [[o|e] s1] eqn:E1; simpl in C1;
    [|status_stops 1%nat].
  pose proof (calls_get_voltage_setpoint ch s1) as C2.
  destruct (get_voltage_setpoint ch s1) as [[vs|e] s2] eqn:E2; simpl in C2;
    [|status_stops 2%nat].
  pose proof (calls_get_current_setpoint ch s2) as C3.
  destruct (get_current_setpoint ch s2) as [[cs|e] s3] eqn:E3; simpl in C3;
    [|status_stops 3%nat].
  pose proof (calls_measure_voltage ch s3) as C4.
  destruct (measure_voltage ch s3) as [[v|e] s4] eqn:E4; simpl in C4;
    [|status_stops 4%nat].
  pose proof (calls_measure_current ch s4) as C5.
  destruct (measure_current ch s4) as [[c|e] s5] eqn:E5; simpl in C5;
    [|status_stops 5%nat].
  pose proof (calls_measure_power ch s5) as C6.
  destruct (measure_power ch s5) as [[p|e] s6] eqn:E6; simpl in C6;
    [|status_stops 6%nat].
  unfold status.
  repeat (erewrite bind_ok by eassumption).
  unfold ret. split.
  - exists 6%nat. split; [lia|]. simpl. chain_calls.
  - intros st s' H. injection H as <- <-. simpl.
    split; [chain_calls|]. split; [reflexivity|].
    exists s1, s2, s3, s4, s5. repeat split; assumption.
Qed.

(** C2, as the code has it.  [all_off] sends the output-off command for
    channels 1, 2, 3 in ascending order and stops at the first send that
    raises, whose exception is its outcome: the later channels are then not
    attempted.  When the sends for channels 1 and 2 return, exactly three
    sends are issued. *)
Theorem all_off_stops_at_first_failure (s : state) :
  (forall e s1,
      output_off 1 s = (Raise e, s1) ->
      all_off s = (Raise e, s1) /\
      calls s1 = calls s ++ [off_send 1]) /\
  (forall s1 e s2,
      output_off 1 s = (Ok tt, s1) ->
      output_off 2 s1 = (Raise e, s2) ->
      all_off s = (Raise e, s2) /\
      calls s2 = calls s ++ [off_send 1; off_send 2]) /\
  (forall s1 s2,
      output_off 1 s = (Ok tt, s1) ->
      output_off 2 s1 = (Ok tt, s2) ->
      all_off s = output_off 3 s2 /\
      calls (snd (all_off s))
      = calls s ++ [off_send 1; off_send 2; off_send 3]).
Proof.
  unfold all_off. simpl for_each. split; [|split].
  - intros e s1 E1. rewrite (bind_raise _ _ _ E1). split; [reflexivity|].
    apply (calls_after (calls_output_off 1) E1).
  - intros s1 e s2 E1 E2.
    rewrite (bind_ok _ _ _ E1), (bind_raise _ _ _ E2). split; [reflexivity|].
    rewrite (calls_after (calls_output_off 2) E2).
    rewrite (calls_after (calls_output_off 1) E1).
    now rewrite <- app_assoc.
  - intros s1 s2 E1 E2.
    rewrite (bind_ok _ _ _ E1), (bind_ok _ _ _ E2), bind_ret_tt.
    split; [reflexivity|].
    rewrite calls_output_off.
    rewrite (calls_after (calls_output_off 2) E2).
    rewrite (calls_after (calls_output_off 1) E1).
    now rewrite <- !app_assoc.
Qed.

(** ** Whole operations: which system calls they make *)

Lemma only_ret {A} P (a : A) : only P (ret a).
Proof. intros s. exists []. simpl. now rewrite app_nil_r. Qed.

Lemma only_raise {A} P e : only P (@raise A e).
Proof. intros s. exists []. simpl. now rewrite app_nil_r. Qed.

Lemma only_silent {A} P (m : M A) : keeps past m -> only P m.
Proof. intros K s. exists []. rewrite K. now rewrite app_nil_r. Qed.

Lemma only_bind {A B} P (m : M A) (k : A -> M B) :
  only P m -> (forall a, only P (k a)) -> only P (bind m k).
Proof.
  intros Hm Hk s. unfold bind. destruct (Hm s) as (e1 & E1 & Q1).
  destruct (m s) as [[a|e] s1]; simpl in *.
  - destruct (Hk a s1) as (e2 & E2 & Q2). exists (e1 ++ e2). split.
    + rewrite E2, E1. now rewrite app_assoc.
    + rewrite forallb_app. now rewrite Q1, Q2.
  - exists e1. now split.
Qed.

Lemma only_try_finally {A} P (body : M A) (fin : M unit) :
  only P body -> only P fin -> only P (try_finally body fin).
Proof.
  intros Hb Hf s. unfold try_finally. destruct (Hb s) as (e1 & E1 & Q1).
  destruct (body s) as [r s1]. destruct (Hf s1) as (e2 & E2 & Q2).
  exists (e1 ++ e2). simpl in *. split.
  - destruct (fin s1) as [[u|e] s2]; simpl in *; rewrite E2, E1;
      now rewrite app_assoc.
  - rewrite forallb_app. now rewrite Q1, Q2.
Qed.

Lemma only_for_each {A} P (xs : list A) (body : A -> M unit) :
  (forall x, only P (body x)) -> only P (for_each xs body).
Proof.
  intros Hb. induction xs as [|x xs IH]; simpl.
  - apply only_ret.
  - apply only_bind; auto.
Qed.

Lemma only_returning {A} P (g : A -> value) (m : M A) :
  only P m -> only P (returning g m).
Proof.
  intros Hm. unfold returning. apply only_bind; auto.
  intros a. apply only_ret.
Qed.

Lemma only_os_open P p f :
  (forall r, P (EvOpen p f r) = true) -> only P (os_open p f).
Proof.
  intros H s. exists [EvOpen p f (on_open os (history (sys s)) p f)].
  split; [unfold os_open; now branch | simpl; now rewrite H].
Qed.

Lemma only_os_write P fd d :
  (forall r, P (EvWrite fd d r) = true) -> only P (os_write fd d).
Proof.
  intros H s. exists [EvWrite fd d (on_write os (history (sys s)) fd d)].
  split; [unfold os_write; now branch | simpl; now rewrite H].
Qed.

Lemma only_time_sleep P ms :
  (forall i, P (EvSleep ms i) = true) -> only P (time_sleep ms).
Proof.
  intros H s. exists [EvSleep ms (on_sleep os (history (sys s)) ms)].
  split; [unfold time_sleep; now branch | simpl; now rewrite H].
Qed.

Lemma only_os_read P fd n :
  (forall r, P (EvRead fd n r) = true) -> only P (os_read fd n).
Proof.
  intros H s. exists [EvRead fd n (on_read os (history (sys s)) fd n)].
  split; [unfold os_read; now branch | simpl; now rewrite H].
Qed.

Lemma only_os_close P fd :
  (forall r, P (EvClose fd r) = true) -> only P (os_close fd).
Proof.
  intros H s. exists [EvClose fd (on_close os (history (sys s)) fd)].
  split; [unfold os_close; now branch | simpl; now rewrite H].
Qed.

Lemma past_py_encode t : keeps past (py_encode t).
Proof. apply any_py_encode. Qed.

Lemma past_py_decode b : keeps past (py_decode b).
Proof. apply any_py_decode. Qed.

Lemma past_py_float t : keeps past (py_float t).
Proof. apply any_py_float. Qed.

Lemma past_get_idn : keeps past get_idn.
Proof. primitive. Qed.

(** Split an operation into steps, down to its system calls. *)
Ltac only_tac :=
  repeat first
    [ apply only_bind; [ | intros ? ]
    | apply only_try_finally
    | apply only_for_each; intros ?
    | apply only_ret
    | apply only_silent; solve [ auto using past_log, past_get_device,
                                   past_get_idn, past_py_encode,
                                   past_py_decode, past_py_float ]
    | apply only_os_open; intros ?; reflexivity
    | apply only_os_write; intros ?; reflexivity
    | apply only_time_sleep; intros ?; reflexivity
    | apply only_os_read; intros ?; reflexivity
    | apply only_os_close; intros ?; reflexivity ].

Lemma send_calls_command cmd : only send_call (command cmd).
Proof. unfold command. only_tac. Qed.

Lemma ask_calls_query cmd : only ask_call (query cmd).
Proof. unfold query. only_tac. Qed.

Lemma ask_calls_float_query cmd : only ask_call (r <- query cmd ;; py_float r).
Proof.
  apply only_bind; [apply ask_calls_query|].
  intros r. apply only_silent, past_py_float.
Qed.

Lemma only_call_method (m : method) :
  only (calls_allowed (kind_of m)) (call_method m).
Proof.
  destruct m; cbn [call_method kind_of calls_allowed]; apply only_returning;
    [ apply send_calls_command
    | apply ask_calls_query
    | apply send_calls_command
    | apply send_calls_command
    | unfold get_output; apply only_bind;
      [apply ask_calls_query | intros r; apply only_ret]
    | apply send_calls_command
    | apply ask_calls_float_query
    | apply ask_calls_float_query
    | apply send_calls_command
    | apply ask_calls_float_query
    | apply ask_calls_float_query
    | apply ask_calls_float_query
    | unfold set_ovp; apply only_bind; [|intros ?]; apply send_calls_command
    | unfold set_ocp; apply only_bind; [|intros ?]; apply send_calls_command
    | unfold status, get_output;
      repeat (apply only_bind;
              [first [apply ask_calls_float_query | apply only_bind;
                        [apply ask_calls_query | intros ?; apply only_ret]]
              | intros ?]);
      apply only_ret
    | unfold all_off; apply only_for_each; intros ch; apply send_calls_command
    | unfold configure; apply only_bind; [apply send_calls_command | intros ?];
      apply only_bind; [apply send_calls_command | intros ?];
      destruct output0; [apply send_calls_command | apply only_ret]
    | unfold __repr__; apply only_silent;
      apply keeps_bind; [apply past_get_device | intros d];
      apply keeps_bind; [apply past_get_idn | intros i];
      apply keeps_ret ].
Qed.

(** X1. A sending operation ([command], [output_on], [output_off],
    [set_voltage], [set_current], [set_ovp], [set_ocp], [all_off],
    [configure]) never reads from the device and every delay it makes is
    50 ms; in an asking operation ([query], [get_output], the setpoint and
    measurement readers, [status]) every read asks for 4096 bytes and every
    delay is 100 ms; [__repr__] makes no system call at all.  This holds on
    every path, whatever the device does. *)
Theorem operations_keep_to_their_calls (m : method) (s : state) :
  forallb (calls_allowed (kind_of m)) (events_since s (snd (call_method m s)))
  = true.
Proof.
  destruct (only_call_method m s) as (evs & E & Q).
  erewrite events_since_app by exact E. exact Q.
Qed.

(** ** The shape of one exchange *)

Lemma bracket_shape {A} (P : Z -> event -> bool) path flags (body : Z -> M A) s :
  (forall fd, only (P fd) (body fd)) ->
  let m := fd <- os_open path flags ;; try_finally (body fd) (os_close fd) in
  (exists c e,
      failure_of c = Some e /\
      on_open os (past s) path flags = c /\
      past (snd (m s)) = past s ++ [EvOpen path flags c] /\
      fst (m s) = Raise e) \/
  (exists fd bevs c,
      on_open os (past s) path flags = Done fd /\
      past (snd (m s))
      = past s ++ EvOpen path flags (Done fd) :: bevs ++ [EvClose fd c] /\
      forallb (P fd) bevs = true /\
      (forall e, failure_of c = Some e -> fst (m s) = Raise e)).
Proof.
  intros HB m. unfold m, bind, os_open, past.
  destruct (on_open os (history (sys s)) path flags) as [fd|e|] eqn:E.
  - right. unfold try_finally.
    match goal with |- context [body fd ?s0] =>
      destruct (HB fd s0) as (bevs & Ev & Qv); destruct (body fd s0) as [r s1] end.
    unfold os_close. exists fd, bevs, (on_close os (history (sys s1)) fd).
    unfold past in Ev. simpl in Ev.
    split; [reflexivity|]. split; [|split; [exact Qv|]].
    + destruct (on_close os (history (sys s1)) fd); simpl; rewrite Ev;
        rewrite <- !app_assoc; reflexivity.
    + intros e F. destruct (on_close os (history (sys s1)) fd); simpl in *;
        try discriminate; now injection F as <-.
  - left. exists (Errno e), (OSError e). repeat split.
  - left. exists Interrupted, KeyboardInterrupt. repeat split.
Qed.

Lemma channel_shape {A} (P : Z -> event -> bool) (c0 : call) (body : Z -> M A) s :
  (forall fd, only (P fd) (body fd)) ->
  let m := log c0 ;; path <- get_device ;; fd <- os_open path O_RDWR ;;
           try_finally (body fd) (os_close fd) in
  (device (self s) = None /\ past (snd (m s)) = past s) \/
  (exists path c e,
      device (self s) = Some path /\
      failure_of c = Some e /\
      on_open os (past s) path O_RDWR = c /\
      past (snd (m s)) = past s ++ [EvOpen path O_RDWR c] /\
      fst (m s) = Raise e) \/
  (exists path fd bevs c,
      device (self s) = Some path /\
      on_open os (past s) path O_RDWR = Done fd /\
      past (snd (m s))
      = past s ++ EvOpen path O_RDWR (Done fd) :: bevs ++ [EvClose fd c] /\
      forallb (P fd) bevs = true /\
      (forall e, failure_of c = Some e -> fst (m s) = Raise e)).
Proof.
  intros HB m. unfold m. rewrite bind_log.
  destruct (device (self s)) as [path|] eqn:D.
  - right.
    erewrite bind_ok by (apply run_get_device; exact D).
    match goal with |- context [bind _ _ ?s0] =>
      destruct (bracket_shape P path O_RDWR body s0 HB) as
        [(c & e & F & O & Ev & R) | (fd & bevs & c & O & Ev & Q & R)] end.
    + left. exists path, c, e. now repeat split.
    + right. exists path, fd, bevs, c. now repeat split.
  - left. split; [reflexivity|].
    unfold bind, get_device. simpl. now rewrite D.
Qed.

Lemma command_body_any fd cmd :
  only (fun _ => true)
       (data <- py_encode (cmd ++ LF) ;; os_write fd data ;; time_sleep 50).
Proof. only_tac. Qed.

Lemma query_body_any fd cmd :
  only (fun _ => true)
       (data <- py_encode (cmd ++ LF) ;; os_write fd data ;; time_sleep 100 ;;
        raw <- os_read fd 4096 ;; text <- py_decode raw ;; ret (strip text)).
Proof. only_tac. Qed.

Lemma failure_from_last_close {A} (c0 : call) (body : Z -> M A) s evs fd c e :
  (forall fd, only (fun _ => true) (body fd)) ->
  let m := log c0 ;; path <- get_device ;; fd <- os_open path O_RDWR ;;
           try_finally (body fd) (os_close fd) in
  failure_of c = Some e ->
  events_since s (snd (m s)) = evs ++ [EvClose fd c] ->
  fst (m s) = Raise e.
Proof.
  intros HB m F H.
  destruct (channel_shape (fun _ _ => true) c0 body s HB) as
    [(D & Ev) | [(path & c' & e' & D & F' & O & Ev & R)
                | (path & fd' & bevs & c' & D & O & Ev & Q & R)]];
    fold m in Ev.
  - rewrite (@events_since_app s _ []) in H by (now rewrite app_nil_r).
    now destruct evs.
  - rewrite (@events_since_app s _ _ Ev) in H.
    destruct evs as [|a [|b evs]]; simpl in H; discriminate.
  - rewrite (@events_since_app s _ _ Ev) in H.
    change (EvOpen path O_RDWR (Done fd') :: bevs ++ [EvClose fd' c'])
      with ((EvOpen path O_RDWR (Done fd') :: bevs) ++ [EvClose fd' c']) in H.
    apply app_inj_tail in H. destruct H as [_ H]. injection H as _ ->.
    fold m in R. now apply R.
Qed.

(** X2. When the last system call of [command] or of [query] is an
    [os.close] that failed or was interrupted, the operation ends with that
    failure, whatever happened before it: a reply that had been read and
    decoded is lost, and an earlier exception is replaced. *)
Theorem close_failure_replaces_the_outcome
    (cmd : str) (s : state) (evs : list event) (fd : Z) (c : sysret unit)
    (e : exn) :
  failure_of c = Some e ->
  (events_since s (snd (command cmd s)) = evs ++ [EvClose fd c] ->
   fst (command cmd s) = Raise e) /\
  (events_since s (snd (query cmd s)) = evs ++ [EvClose fd c] ->
   fst (query cmd s) = Raise e).
Proof.
  intros F. split; intros H.
  - eapply (@failure_from_last_close unit (Send cmd)
              (fun fd => data <- py_encode (cmd ++ LF) ;; os_write fd data ;;
                         time_sleep 50) s evs fd c e);
      [intros fd0; apply command_body_any | exact F | exact H].
  - eapply (@failure_from_last_close str (Query cmd)
              (fun fd => data <- py_encode (cmd ++ LF) ;; os_write fd data ;;
                         time_sleep 100 ;; raw <- os_read fd 4096 ;;
                         text <- py_decode raw ;; ret (strip text)) s evs fd c e);
      [intros fd0; apply query_body_any | exact F | exact H].
Qed.

(** X3. When [os.open] on the device path fails or is interrupted,
    [command] and [query] end with that failure having made no other system
    call: nothing is written, nothing is read, nothing is closed. *)
Theorem failed_open_is_the_only_call
    (cmd : str) (s : state) (path : str) (c : sysret Z) (e : exn) :
  device (self s) = Some path ->
  on_open os (past s) path O_RDWR = c ->
  failure_of c = Some e ->
  (fst (command cmd s) = Raise e /\
   events_since s (snd (command cmd s)) = [EvOpen path O_RDWR c]) /\
  (fst (query cmd s) = Raise e /\
   events_since s (snd (query cmd s)) = [EvOpen path O_RDWR c]).
Proof.
  intros D O F.
  assert (G : forall A (c0 : call) (body : Z -> M A),
             (forall fd, only (fun _ => true) (body fd)) ->
             let m := log c0 ;; path <- get_device ;; fd <- os_open path O_RDWR ;;
                      try_finally (body fd) (os_close fd) in
             fst (m s) = Raise e /\
             events_since s (snd (m s)) = [EvOpen path O_RDWR c]).
  { intros A c0 body HB m.
    destruct (channel_shape (fun _ _ => true) c0 body s HB) as
      [(D' & Ev) | [(path' & c' & e' & D' & F' & O' & Ev & R)
                  | (path' & fd' & bevs & c' & D' & O' & Ev & Q & R)]];
      fold m in Ev; rewrite D in D'; try discriminate;
      assert (P' : path' = path) by congruence; subst path'.
    - fold m in R. rewrite O in O'. subst c'. rewrite F in F'.
      assert (E' : e' = e) by congruence. subst e'. split; [exact R|].
      now apply events_since_app.
    - rewrite O in O'. rewrite O' in F. simpl in F. discriminate. }
  split.
  - apply (G unit (Send cmd)
             (fun fd => data <- py_encode (cmd ++ LF) ;; os_write fd data ;;
                        time_sleep 50)).
    intros fd. apply command_body_any.
  - apply (G str (Query cmd)
             (fun fd => data <- py_encode (cmd ++ LF) ;; os_write fd data ;;
                        time_sleep 100 ;; raw <- os_read fd 4096 ;;
                        text <- py_decode raw ;; ret (strip text))).
    intros fd. apply query_body_any.
Qed.

(** X4. When the command encodes and the device file opens, takes the
    write, lets the delay pass and closes, [command] returns [None] having
    made exactly four system calls: open, one write of the UTF-8 encoding of
    the command followed by one line feed, a 50 ms delay, close.  It logs
    one send. *)
Theorem command_makes_one_write
    (cmd : str) (s : state) (path : str) (fd : Z) (data : bytes) (n : Z) :
  device (self s) = Some path ->
  encode (cmd ++ LF) = Some data ->
  answers (past s) (send_exchange path fd data n) ->
  exists s',
    command cmd s = (Ok tt, s') /\
    past s' = past s ++ send_exchange path fd data n /\
    calls s' = calls s ++ [Send cmd] /\
    self s' = self s /\
    open_handles s' = open_handles s.
Proof.
  intros D E (A1 & A2 & A3 & A4 & _).
  eexists. split; [|split; [|split; [|split]]].
  - unfold command. rewrite bind_log.
    erewrite bind_ok by (apply run_get_device; exact D).
    erewrite bind_ok by (apply run_os_open; exact A1).
    unfold try_finally.
    erewrite bind_ok by (apply run_py_encode; exact E).
    erewrite bind_ok by (apply run_os_write; exact A2).
    erewrite run_time_sleep by exact A3.
    erewrite run_os_close by exact A4.
    reflexivity.
  - unfold past, send_exchange. simpl. now rewrite <- !app_assoc.
  - reflexivity.
  - reflexivity.
  - unfold open_handles. simpl. apply remove_one_head.
Qed.

(** ** The discipline of the device channel *)

Lemma str_eqb_refl a : str_eqb a a = true.
Proof. now apply str_eqb_eq. Qed.

Lemma follows_body p fd bevs c :
  forallb (on_fd fd) bevs = true ->
  follows_protocol p (Some fd) (bevs ++ [EvClose fd c]) = true.
Proof.
  induction bevs as [|e bevs IH]; simpl; intros Q.
  - now rewrite Z.eqb_refl.
  - apply andb_prop in Q. destruct Q as [Qe Q]. specialize (IH Q).
    destruct e; simpl in Qe; try discriminate; simpl; now rewrite ?Qe, IH.
Qed.

Lemma follows_app p e1 :
  forall held e2,
    follows_protocol p held e1 = true ->
    follows_protocol p None e2 = true ->
    follows_protocol p held (e1 ++ e2) = true.
Proof.
  induction e1 as [|e e1 IH]; intros held e2 H1 H2.
  - destruct held; [discriminate|exact H2].
  - simpl in *. destruct held as [fd|], e as [p' f r| | | |];
      try discriminate;
      try (destruct r);
      repeat match goal with
             | H : _ && _ = true |- _ => apply andb_prop in H; destruct H
             end;
      repeat match goal with
             | H : ?b = true |- context [?b] => rewrite H
             end;
      simpl; now apply IH.
Qed.

Lemma disciplined_silent {A} (m : M A) : keeps past m -> disciplined m.
Proof. intros K s p D. exists []. rewrite K. now rewrite app_nil_r. Qed.

Lemma disciplined_bind {A B} (m : M A) (k : A -> M B) :
  keeps self m -> disciplined m -> (forall a, disciplined (k a)) ->
  disciplined (bind m k).
Proof.
  intros Ks Hm Hk s p D. unfold bind.
  destruct (Hm s p D) as (e1 & E1 & F1). specialize (Ks s).
  destruct (m s) as [[a|e] s1]; simpl in *.
  - rewrite <- Ks in D. destruct (Hk a s1 p D) as (e2 & E2 & F2).
    exists (e1 ++ e2). split.
    + rewrite E2, E1. now rewrite app_assoc.
    + now apply follows_app.
  - exists e1. now split.
Qed.

Lemma disciplined_for_each {A} (xs : list A) (body : A -> M unit) :
  (forall x, keeps self (body x)) -> (forall x, disciplined (body x)) ->
  disciplined (for_each xs body).
Proof.
  intros Ks Hb. induction xs as [|x xs IH]; simpl.
  - apply disciplined_silent, keeps_ret.
  - apply disciplined_bind; auto.
Qed.

Lemma disciplined_returning {A} (g : A -> value) (m : M A) :
  keeps self m -> disciplined m -> disciplined (returning g m).
Proof.
  intros Ks Hm. unfold returning. apply disciplined_bind; auto.
  intros a. apply disciplined_silent, keeps_ret.
Qed.

Lemma disciplined_channel {A} (c0 : call) (body : Z -> M A) :
  (forall fd, only (on_fd fd) (body fd)) ->
  disciplined (log c0 ;; path <- get_device ;; fd <- os_open path O_RDWR ;;
               try_finally (body fd) (os_close fd)).
Proof.
  intros HB s p D.
  destruct (channel_shape on_fd c0 body s HB) as
    [(D' & Ev) | [(path & c & e & D' & F & O & Ev & R)
                | (path & fd & bevs & c & D' & O & Ev & Q & R)]];
    rewrite D in D'; try discriminate;
    assert (P' : path = p) by congruence; subst path.
  - exists [EvOpen p O_RDWR c]. split; [exact Ev|].
    destruct c; simpl in F; try discriminate; simpl;
      now rewrite str_eqb_refl.
  - exists (EvOpen p O_RDWR (Done fd) :: bevs ++ [EvClose fd c]).
    split; [exact Ev|]. simpl. rewrite str_eqb_refl. simpl.
    now apply follows_body.
Qed.

Lemma command_body_on_fd fd cmd :
  only (on_fd fd)
       (data <- py_encode (cmd ++ LF) ;; os_write fd data ;; time_sleep 50).
Proof.
  apply only_bind; [apply only_silent, past_py_encode | intros data].
  apply only_bind; [apply only_os_write; intros r; apply Z.eqb_refl | intros n].
  apply only_time_sleep. reflexivity.
Qed.

Lemma query_body_on_fd fd cmd :
  only (on_fd fd)
       (data <- py_encode (cmd ++ LF) ;; os_write fd data ;; time_sleep 100 ;;
        raw <- os_read fd 4096 ;; text <- py_decode raw ;; ret (strip text)).
Proof.
  apply only_bind; [apply only_silent, past_py_encode | intros data].
  apply only_bind; [apply only_os_write; intros r; apply Z.eqb_refl | intros n].
  apply only_bind; [apply only_time_sleep; reflexivity | intros u].
  apply only_bind; [apply only_os_read; intros r; apply Z.eqb_refl | intros raw].
  apply only_bind; [apply only_silent, past_py_decode | intros text].
  apply only_ret.
Qed.

Lemma disciplined_command cmd : disciplined (command cmd).
Proof.
  unfold command.
  apply (disciplined_channel (Send cmd)
           (fun fd => data <- py_encode (cmd ++ LF) ;; os_write fd data ;;
                      time_sleep 50)).
  intros fd. apply command_body_on_fd.
Qed.

Lemma disciplined_query cmd : disciplined (query cmd).
Proof.
  unfold query.
  apply (disciplined_channel (Query cmd)
           (fun fd => data <- py_encode (cmd ++ LF) ;; os_write fd data ;;
                      time_sleep 100 ;; raw <- os_read fd 4096 ;;
                      text <- py_decode raw ;; ret (strip text))).
  intros fd. apply query_body_on_fd.
Qed.

Lemma disciplined_query_then {A} cmd (k : str -> M A) :
  (forall r, keeps past (k r)) -> disciplined (r <- query cmd ;; k r).
Proof.
  intros K. apply disciplined_bind.
  - apply self_query.
  - apply disciplined_query.
  - intros r. apply disciplined_silent, K.
Qed.

Lemma self_query_then {A} cmd (k : str -> M A) :
  (forall r, keeps self (k r)) -> keeps self (r <- query cmd ;; k r).
Proof. intros K. apply keeps_bind; [apply self_query | exact K]. Qed.

Lemma disciplined_status ch : disciplined (status ch).
Proof.
  unfold status, get_output, get_voltage_setpoint, get_current_setpoint,
    measure_voltage, measure_current, measure_power.
  repeat (apply disciplined_bind;
          [ apply self_query_then; intros r;
            first [apply keeps_ret | apply any_py_float]
          | apply disciplined_query_then; intros r;
            first [apply keeps_ret | apply past_py_float]
          | intros ? ]).
  apply disciplined_silent, keeps_ret.
Qed.

Lemma disciplined_call_method (m : method) : disciplined (call_method m).
Proof.
  destruct m; cbn [call_method];
    (apply disciplined_returning;
     [ first [ apply self_command | apply self_query | apply self_status
             | apply self_all_off | apply self_configure | apply self_repr
             | idtac ]
     | ]).
  - apply disciplined_command.
  - apply disciplined_query.
  - apply disciplined_command.
  - apply disciplined_command.
  - unfold get_output. frame.
  - apply disciplined_query_then. intros r. apply keeps_ret.
  - apply disciplined_command.
  - unfold get_voltage_setpoint. frame.
  - apply disciplined_query_then. intros r. apply past_py_float.
  - unfold measure_voltage. frame.
  - apply disciplined_query_then. intros r. apply past_py_float.
  - apply disciplined_command.
  - unfold get_current_setpoint. frame.
  - apply disciplined_query_then. intros r. apply past_py_float.
  - unfold measure_current. frame.
  - apply disciplined_query_then. intros r. apply past_py_float.
  - unfold measure_power. frame.
  - apply disciplined_query_then. intros r. apply past_py_float.
  - unfold set_ovp. frame.
  - unfold set_ovp. apply disciplined_bind;
      [apply self_command | apply disciplined_command
      | intros ?; apply disciplined_command].
  - unfold set_ocp. frame.
  - unfold set_ocp. apply disciplined_bind;
      [apply self_command | apply disciplined_command
      | intros ?; apply disciplined_command].
  - apply disciplined_status.
  - unfold all_off. apply disciplined_for_each; intros ch;
      [apply self_command | apply disciplined_command].
  - unfold configure.
    apply disciplined_bind;
      [apply self_command | apply disciplined_command | intros ?].
    apply disciplined_bind;
      [apply self_command | apply disciplined_command | intros ?].
    destruct output0;
      [apply disciplined_command | apply disciplined_silent, keeps_ret].
  - unfold __repr__. apply disciplined_silent.
    apply keeps_bind; [apply past_get_device | intros d].
    apply keeps_bind; [apply past_get_idn | intros i].
    apply keeps_ret.
Qed.

Lemma handles_get_idn : keeps open_handles get_idn.
Proof. primitive. Qed.

Lemma handles_query_then {A} cmd (k : str -> M A) :
  (forall r, keeps open_handles (k r)) ->
  keeps open_handles (r <- query cmd ;; k r).
Proof. intros K. apply keeps_bind; [apply handles_query | exact K]. Qed.

Lemma handles_call_method (m : method) : keeps open_handles (call_method m).
Proof.
  destruct m; cbn [call_method]; apply keeps_returning;
    [ apply handles_command
    | apply handles_query
    | apply handles_command
    | apply handles_command
    | apply handles_query_then; intros r; apply keeps_ret
    | apply handles_command
    | apply handles_query_then; intros r; apply any_py_float
    | apply handles_query_then; intros r; apply any_py_float
    | apply handles_command
    | apply handles_query_then; intros r; apply any_py_float
    | apply handles_query_then; intros r; apply any_py_float
    | apply handles_query_then; intros r; apply any_py_float
    | unfold set_ovp; apply keeps_bind; [|intros ?]; apply handles_command
    | unfold set_ocp; apply keeps_bind; [|intros ?]; apply handles_command
    | unfold status, get_output, get_voltage_setpoint, get_current_setpoint,
        measure_voltage, measure_current, measure_power;
      repeat (apply keeps_bind;
              [ apply handles_query_then; intros r;
                first [apply keeps_ret | apply any_py_float]
              | intros ? ]);
      apply keeps_ret
    | unfold all_off; apply keeps_for_each; intros ch; apply handles_command
    | unfold configure;
      apply keeps_bind; [apply handles_command | intros ?];
      apply keeps_bind; [apply handles_command | intros ?];
      destruct output0; [apply handles_command | apply keeps_ret]
    | unfold __repr__;
      apply keeps_bind; [apply handles_get_device | intros d];
      apply keeps_bind; [apply handles_get_idn | intros i];
      apply keeps_ret ].
Qed.

(** X5. Every operation of a client whose device path is [p], on every
    path and whatever the device does, keeps to the discipline of the
    device channel: the only file it opens is [p], read-write; it writes to
    and reads from no descriptor but the one it has just opened; it never
    holds two descriptors; it closes the one it holds before it opens again
    or returns.  The descriptor table is afterwards what it was before. *)
Theorem every_operation_follows_the_protocol
    (m : method) (s : state) (p : str) :
  device (self s) = Some p ->
  follows_protocol p None (events_since s (snd (call_method m s))) = true /\
  open_handles (snd (call_method m s)) = open_handles s.
Proof.
  intros D. split.
  - pose proof (disciplined_call_method m) as H. unfold disciplined in H.
    destruct (H s p D) as (evs & E & F).
    erewrite events_since_app by exact E. exact F.
  - apply handles_call_method.
Qed.

(** ** What [query] returns *)

Lemma returns_only_ret {A} (P : A -> Prop) (a : A) : P a -> returns_only P (ret a).
Proof. intros Pa s a' H. simpl in H. now injection H as <-. Qed.

Lemma returns_only_bind {A B} (P : B -> Prop) (m : M A) (k : A -> M B) :
  (forall a, returns_only P (k a)) -> returns_only P (bind m k).
Proof.
  intros Hk s b. unfold bind. destruct (m s) as [[a|e] s1]; simpl.
  - apply Hk.
  - discriminate.
Qed.

Lemma returns_only_try_finally {A} (P : A -> Prop) (body : M A) (fin : M unit) :
  returns_only P body -> returns_only P (try_finally body fin).
Proof.
  intros Hb s a. unfold try_finally. specialize (Hb s a).
  destruct (body s) as [r s1]. destruct (fin s1) as [[u|e] s2]; simpl in *.
  - exact Hb.
  - discriminate.
Qed.

Lemma query_returns_stripped_text cmd :
  returns_only (fun r => exists text, r = strip text) (query cmd).
Proof.
  unfold query.
  apply returns_only_bind; intros u.
  apply returns_only_bind; intros path.
  apply returns_only_bind; intros fd.
  apply returns_only_try_finally.
  repeat (apply returns_only_bind; intros ?).
  apply returns_only_ret. eauto.
Qed.

Lemma drop_while_fixed p s :
  (forall c t, s = c :: t -> p c = false) -> drop_while p s = s.
Proof.
  destruct s as [|c t]; simpl; intros H; [reflexivity|].
  now rewrite (H c t eq_refl).
Qed.

Lemma strip_fixed s : trimmed s -> strip s = s.
Proof.
  intros [Hh Ht]. unfold strip, lstrip, rstrip.
  rewrite (drop_while_fixed isspace Hh).
  rewrite drop_while_fixed; [apply rev_involutive|].
  intros c t E. apply (Ht (rev t) c).
  rewrite <- (rev_involutive s), E. reflexivity.
Qed.

(** X7. Whatever the device sends, a text that [query] returns has no
    whitespace at either end: stripping it again changes nothing and it
    does not end in a line feed.  (The claim C5 says so for a device that
    behaves; this needs no assumption.) *)
Theorem query_result_is_always_trimmed (cmd : str) (s : state) (r : str) :
  fst (query cmd s) = Ok r ->
  trimmed r /\ strip r = r /\ (forall t, r <> t ++ LF).
Proof.
  intros H. destruct (@query_returns_stripped_text cmd s r H) as [text ->].
  split; [apply strip_trimmed|]. split.
  - apply strip_fixed, strip_trimmed.
  - apply strip_no_trailing_newline.
Qed.

(** ** The front end: what can end it *)

Lemma rbind_returned {A B} (m : R A) (k : A -> R B) c a c1 :
  m c = (Returned a, c1) -> rbind m k c = k a c1.
Proof. intros E. unfold rbind. now rewrite E. Qed.

Lemma rbind_raised {A B} (m : R A) (k : A -> R B) c e c1 :
  m c = (Raised e, c1) -> rbind m k c = (Raised e, c1).
Proof. intros E. unfold rbind. now rewrite E. Qed.

Lemma lift_ok {A} (m : M A) c a s :
  m (machine c) = (Ok a, s) ->
  lift m c = (Returned a, {| machine := s; screen := screen c |}).
Proof. intros E. unfold lift. now rewrite E. Qed.

Lemma lift_raise {A} (m : M A) c e s :
  m (machine c) = (Raise e, s) ->
  lift m c = (Raised (Lib e), {| machine := s; screen := screen c |}).
Proof. intros E. unfold lift. now rewrite E. Qed.

Lemma rraises_only_ret {A} P (a : A) : rraises_only P (rret a).
Proof. intros c e H. discriminate. Qed.

Lemma rraises_only_raise {A} (P : repl_exn -> bool) e :
  P e = true -> rraises_only P (@rraise A e).
Proof. intros Pe c e' H. simpl in H. now injection H as <-. Qed.

Lemma rraises_only_show P o : rraises_only P (show o).
Proof. intros c e H. discriminate. Qed.

Lemma rraises_only_bind {A B} P (m : R A) (k : A -> R B) :
  rraises_only P m -> (forall a, rraises_only P (k a)) ->
  rraises_only P (rbind m k).
Proof.
  intros Hm Hk c e. unfold rbind. specialize (Hm c).
  destruct (m c) as [[a|e'] c1]; simpl in *.
  - apply Hk.
  - intros H. injection H as <-. now apply Hm.
Qed.

Lemma rraises_only_lift {A} (P : repl_exn -> bool) (m : M A) :
  (forall e, P (Lib e) = true) -> rraises_only P (lift m).
Proof.
  intros HP c e. unfold lift. destruct (m (machine c)) as [[a|e'] s]; simpl.
  - discriminate.
  - intros H. injection H as <-. apply HP.
Qed.

Lemma rraises_only_for_each {A} P (xs : list A) (body : A -> R unit) :
  (forall x, rraises_only P (body x)) -> rraises_only P (rfor_each xs body).
Proof.
  intros Hb. induction xs as [|x xs IH]; simpl.
  - apply rraises_only_ret.
  - apply rraises_only_bind; auto.
Qed.

Lemma rraises_only_item P args k :
  P IndexError = true -> rraises_only P (item args k).
Proof.
  intros HP. unfold item. destruct (nth_error args k).
  - apply rraises_only_ret.
  - now apply rraises_only_raise.
Qed.

Lemma rraises_only_py_int P t :
  (forall x, P (IntValueError x) = true) -> rraises_only P (py_int t).
Proof.
  intros HP. unfold py_int. destruct (int_of_str t).
  - apply rraises_only_ret.
  - apply rraises_only_raise, HP.
Qed.

(** Nothing in a command exits the interpreter. *)
Ltac no_exit :=
  repeat first
    [ apply rraises_only_bind; [ | intros ? ]
    | apply rraises_only_ret
    | apply rraises_only_show
    | apply rraises_only_for_each; intros ?
    | apply rraises_only_lift; intros ?; reflexivity
    | apply rraises_only_item; reflexivity
    | apply rraises_only_py_int; intros ?; reflexivity ].

Lemma execute_does_not_exit cmd args : rraises_only not_exit (execute cmd args).
Proof.
  unfold execute, print_help, print_status, int_item, float_item, print.
  repeat match goal with
         | |- rraises_only _ (if ?b then _ else _) => destruct b
         end;
    try solve [ no_exit ].
  destruct args; no_exit.
Qed.

Lemma loop_handler_catches (body : R control) :
  rraises_only not_exit body ->
  rraises_only is_interrupt (try_except body loop_handler).
Proof.
  intros Hb c e. unfold try_except. specialize (Hb c).
  destruct (body c) as [[k|e'] c1]; simpl in *; [discriminate|].
  specialize (Hb e' eq_refl).
  destruct e' as [|t|code|x]; simpl in *; try discriminate.
  destruct x; simpl; try discriminate.
  intros H. now injection H as <-.
Qed.

Lemma split_words_nonempty word s :
  word <> [] -> split_words word s <> [].
Proof.
  revert word. induction s as [|c s IH]; intros word H; simpl.
  - destruct word; [contradiction|discriminate].
  - destruct (isspace c).
    + destruct word; [contradiction|discriminate].
    + apply IH. now destruct word.
Qed.

Lemma split_stripped raw c t :
  strip raw = c :: t -> exists word rest, split (c :: t) = word :: rest.
Proof.
  intros E. destruct (strip_trimmed raw) as [Hh _].
  specialize (Hh c t E). unfold split. simpl. rewrite Hh.
  destruct (split_words ([] ++ [c]) t) as [|word rest] eqn:S.
  - exfalso. revert S. apply split_words_nonempty. discriminate.
  - eauto.
Qed.

Lemma turn_raises_only_interrupt ev : rraises_only is_interrupt (turn ev).
Proof.
  unfold turn. apply rraises_only_bind; [apply rraises_only_show | intros _].
  destruct ev as [raw| |].
  - destruct (strip raw) as [|c t] eqn:E; [apply rraises_only_ret|].
    destruct (split_stripped raw E) as (word & rest & S).
    cbv zeta. rewrite S. unfold item. simpl nth_error.
    apply rraises_only_bind; [apply rraises_only_ret | intros w].
    apply loop_handler_catches, execute_does_not_exit.
  - unfold print. no_exit.
  - unfold print. no_exit.
Qed.

Lemma rraises_only_weaken {A} (P Q : repl_exn -> bool) (m : R A) :
  (forall e, P e = true -> Q e = true) -> rraises_only P m -> rraises_only Q m.
Proof. intros PQ H c e E. apply PQ. now apply (H c). Qed.

Lemma loop_raises_only_interrupt inputs : rraises_only is_interrupt (loop inputs).
Proof.
  induction inputs as [|ev rest IH]; simpl.
  - apply rraises_only_bind; [apply turn_raises_only_interrupt | intros _].
    apply rraises_only_ret.
  - apply rraises_only_bind; [apply turn_raises_only_interrupt | intros k].
    destruct k; [exact IH | apply rraises_only_ret].
Qed.

Lemma rraises_only_connect (P : repl_exn -> bool) dev :
  (forall e, P (Lib e) = true) -> rraises_only P (connect dev).
Proof.
  intros HP c e. unfold connect.
  destruct (construct dev (sys (machine c)) (calls (machine c))) as [[a|e'] s];
    simpl.
  - discriminate.
  - intros H. injection H as <-. apply HP.
Qed.

Lemma main_raises_only argv inputs :
  rraises_only interrupt_or_exit (main argv inputs).
Proof.
  unfold main. cbv zeta.
  apply rraises_only_bind; [apply rraises_only_show | intros _].
  apply rraises_only_bind.
  - assert (Hb : rraises_only not_exit
                   (connect (device_of argv) >> i <~ lift get_idn ;;
                    print (lit "Connected: " ++ i ++ LF))).
    { apply rraises_only_bind;
        [apply rraises_only_connect; intros ?; reflexivity | intros _].
      unfold print. no_exit. }
    intros c e. unfold try_except. specialize (Hb c).
    destruct ((connect (device_of argv) >> i <~ lift get_idn ;;
               print (lit "Connected: " ++ i ++ LF)) c) as [[u|e'] c1];
      simpl in *; [discriminate|].
    specialize (Hb e' eq_refl).
    destruct (is_Exception e') eqn:X.
    + unfold rbind, print, show, rraise. simpl.
      intros H. now injection H as <-.
    + intros H. injection H as <-.
      destruct e' as [|t|code|x]; simpl in X, Hb; try discriminate.
      destruct x; simpl in X; try discriminate. reflexivity.
  - intros _.
    apply rraises_only_bind; [apply rraises_only_show | intros _].
    apply (@rraises_only_weaken _ is_interrupt);
      [|apply loop_raises_only_interrupt].
    intros e. destruct e as [|t|code|x]; simpl; try discriminate.
    destruct x; simpl; try discriminate. reflexivity.
Qed.

Lemma is_interrupt_eq e : is_interrupt e = true -> e = Lib KeyboardInterrupt.
Proof.
  destruct e as [|t|code|x]; simpl; try discriminate.
  destruct x; simpl; try discriminate. reflexivity.
Qed.

(** X8. No error of a command ends the interactive loop: whatever the
    user types and whatever the device does, one turn of the loop ends
    with an exception only when [KeyboardInterrupt] struck during a device
    operation (the loop catches [Exception], and the interrupt is not one).
    The whole program, besides returning, ends only by that interrupt or
    by [sys.exit(1)]. *)
Theorem only_an_interrupt_ends_the_loop
    (argv : list str) (inputs : list in_event) (ev : in_event) (c : console)
    (e : repl_exn) :
  (fst (turn ev c) = Raised e -> e = Lib KeyboardInterrupt) /\
  (fst (main argv inputs c) = Raised e ->
   e = Lib KeyboardInterrupt \/ e = SystemExit 1).
Proof.
  split; intros H.
  - apply is_interrupt_eq. exact (turn_raises_only_interrupt ev c H).
  - pose proof (main_raises_only argv inputs c H) as P.
    destruct e as [|t|code|x]; simpl in P; try discriminate.
    + right. destruct code as [|q|q]; try discriminate.
      destruct q; try discriminate. reflexivity.
    + left. destruct x; simpl in P; try discriminate. reflexivity.
Qed.

(** ** The front end: what each command does to the device *)

(** X9. [raw] joins its arguments with single spaces and passes the
    result through: as one query when it contains a question mark, printing
    the reply after [< ]; otherwise as one send, printing [OK].  A failure
    of the library is raised to the loop, nothing having been printed. *)
Theorem raw_passes_the_line_through (args : list str) (c : console) :
  let scpi := join (lit " ") args in
  let after := snd (execute (lit "raw") args c) in
  if contains (lit "?") scpi
  then
    calls (machine after) = calls (machine c) ++ [Query scpi] /\
    (forall r s, query scpi (machine c) = (Ok r, s) ->
       execute (lit "raw") args c
       = (Returned Continue,
          {| machine := s; screen := screen c ++ [Print (lit "< " ++ r)] |})) /\
    (forall e s, query scpi (machine c) = (Raise e, s) ->
       execute (lit "raw") args c
       = (Raised (Lib e), {| machine := s; screen := screen c |}))
  else
    calls (machine after) = calls (machine c) ++ [Send scpi] /\
    (forall s, command scpi (machine c) = (Ok tt, s) ->
       execute (lit "raw") args c
       = (Returned Continue,
          {| machine := s; screen := screen c ++ [Print (lit "OK")] |})) /\
    (forall e s, command scpi (machine c) = (Raise e, s) ->
       execute (lit "raw") args c
       = (Raised (Lib e), {| machine := s; screen := screen c |})).
Proof.
  intros scpi after. unfold after.
  change (execute (lit "raw") args c)
    with ((if contains (lit "?") scpi
           then result <~ lift (query scpi) ;;
                print (lit "< " ++ result) >> rret Continue
           else lift (command scpi) >> print (lit "OK") >> rret Continue) c).
  destruct (contains (lit "?") scpi).
  - split; [|split].
    + pose proof (calls_query scpi (machine c)) as C.
      unfold rbind, lift.
      destruct (query scpi (machine c)) as [[r|e] s]; exact C.
    + intros r s Q. erewrite rbind_returned by (apply lift_ok; exact Q); reflexivity.
    + intros e s Q. erewrite rbind_raised by (apply lift_raise; exact Q); reflexivity.
  - split; [|split].
    + pose proof (calls_command scpi (machine c)) as C.
      unfold rbind, lift.
      destruct (command scpi (machine c)) as [[r|e] s]; exact C.
    + intros s Q. erewrite rbind_returned by (apply lift_ok; exact Q); reflexivity.
    + intros e s Q. erewrite rbind_raised by (apply lift_raise; exact Q); reflexivity.
Qed.






Lemma str_of_exn_connection m : str_of_exn (ConnectionError m) = m.
Proof. reflexivity. Qed.

(** X11. A failed construction is fatal: when [RigolDP832A(device)]
    raises anything but [KeyboardInterrupt] (the device file does not open,
    the reply does not decode, the identity is not a Rigol's), [main]
    prints [Failed to connect: ] with the text of the exception, which for
    a wrong identity ends in that identity, and exits with status 1; it
    never prompts, reads no input and makes no further device call. *)
Theorem failed_connection_ends_the_program
    (argv : list str) (inputs : list in_event) (w : world) (e : exn) (s : state) :
  construct (device_of argv) w [] = (Raise e, s) ->
  e <> KeyboardInterrupt ->
  main argv inputs (start w)
  = (Raised (SystemExit 1),
     {| machine := s;
        screen := [Print (lit "Connecting to " ++ device_of argv ++ lit "...");
                   Print (lit "Failed to connect: " ++ str_of_exn e)] |}) /\
  (forall i, e = ConnectionError (lit "Unexpected device response: " ++ i) ->
     str_of_exn e = lit "Unexpected device response: " ++ i).
Proof.
  intros H NK. split.
  - unfold main, try_except, rbind, print, show, connect, start. simpl.
    rewrite H. simpl.
    destruct e; simpl; try reflexivity. contradiction.
  - intros i ->. reflexivity.
Qed.

(** ** The front end: [print_status] *)







(** ** The whole session and the device channel *)

Lemma tidy_silent {A} (m : M A) :
  keeps self m -> keeps past m -> keeps open_handles m -> tidy m.
Proof. intros Ks Kp Kh. repeat split; auto. now apply disciplined_silent. Qed.

Lemma tidy_bind {A B} (m : M A) (k : A -> M B) :
  tidy m -> (forall a, tidy (k a)) -> tidy (bind m k).
Proof.
  intros (Ks & D & Kh) Hk. repeat split.
  - apply keeps_bind; [exact Ks | intros a; apply Hk].
  - apply disciplined_bind; [exact Ks | exact D | intros a; apply Hk].
  - apply keeps_bind; [exact Kh | intros a; apply Hk].
Qed.

Lemma tidy_ret {A} (a : A) : tidy (ret a).
Proof. apply tidy_silent; apply keeps_ret. Qed.

Lemma tidy_py_float t : tidy (py_float t).
Proof. apply tidy_silent; apply any_py_float. Qed.

Lemma tidy_command cmd : tidy (command cmd).
Proof.
  repeat split;
    [apply self_command | apply disciplined_command | apply handles_command].
Qed.

Lemma tidy_query cmd : tidy (query cmd).
Proof.
  repeat split; [apply self_query | apply disciplined_query | apply handles_query].
Qed.

Lemma tidy_for_each {A} (xs : list A) (body : A -> M unit) :
  (forall x, tidy (body x)) -> tidy (for_each xs body).
Proof.
  intros Hb. induction xs as [|x xs IH]; simpl.
  - apply tidy_ret.
  - apply tidy_bind; auto.
Qed.

Lemma tidy_float_query cmd : tidy (r <- query cmd ;; py_float r).
Proof. apply tidy_bind; [apply tidy_query | intros r; apply tidy_py_float]. Qed.

Lemma tidy_status ch : tidy (status ch).
Proof.
  unfold status, get_output.
  apply tidy_bind;
    [apply tidy_bind; [apply tidy_query | intros r; apply tidy_ret] | intros o].
  repeat (apply tidy_bind; [apply tidy_float_query | intros ?]).
  apply tidy_ret.
Qed.

Lemma tidy_all_off : tidy all_off.
Proof. unfold all_off. apply tidy_for_each. intros ch. apply tidy_command. Qed.

Lemma rdisciplined_still p {A} (m : R A) :
  (forall c, machine (snd (m c)) = machine c) -> rdisciplined p m.
Proof.
  intros K c D. exists []. rewrite K. rewrite app_nil_r. now repeat split.
Qed.

Lemma rdisciplined_ret p {A} (a : A) : rdisciplined p (rret a).
Proof. now apply rdisciplined_still. Qed.

Lemma rdisciplined_raise p {A} e : rdisciplined p (@rraise A e).
Proof. now apply rdisciplined_still. Qed.

Lemma rdisciplined_show p o : rdisciplined p (show o).
Proof. now apply rdisciplined_still. Qed.

Lemma rdisciplined_item p args k : rdisciplined p (item args k).
Proof.
  apply rdisciplined_still. intros c. unfold item.
  now destruct (nth_error args k).
Qed.

Lemma rdisciplined_py_int p t : rdisciplined p (py_int t).
Proof.
  apply rdisciplined_still. intros c. unfold py_int.
  now destruct (int_of_str t).
Qed.

Lemma rdisciplined_bind p {A B} (m : R A) (k : A -> R B) :
  rdisciplined p m -> (forall a, rdisciplined p (k a)) ->
  rdisciplined p (rbind m k).
Proof.
  intros Hm Hk c D. unfold rbind.
  destruct (Hm c D) as (e1 & E1 & F1 & D1 & H1).
  destruct (m c) as [[a|e] c1]; simpl in *.
  - destruct (Hk a c1 D1) as (e2 & E2 & F2 & D2 & H2).
    exists (e1 ++ e2). repeat split.
    + rewrite E2, E1. now rewrite app_assoc.
    + now apply follows_app.
    + exact D2.
    + now rewrite H2.
  - exists e1. now repeat split.
Qed.

Lemma rdisciplined_try_except p {A} (body : R A) handler :
  rdisciplined p body ->
  (forall e h, handler e = Some h -> rdisciplined p h) ->
  rdisciplined p (try_except body handler).
Proof.
  intros Hb Hh c D. unfold try_except.
  destruct (Hb c D) as (e1 & E1 & F1 & D1 & H1).
  destruct (body c) as [[a|e] c1]; simpl in *.
  - exists e1. now repeat split.
  - destruct (handler e) as [h|] eqn:L.
    + destruct (Hh e h L c1 D1) as (e2 & E2 & F2 & D2 & H2).
      exists (e1 ++ e2). repeat split.
      * rewrite E2, E1. now rewrite app_assoc.
      * now apply follows_app.
      * exact D2.
      * now rewrite H2.
    + exists e1. now repeat split.
Qed.

Lemma rdisciplined_for_each p {A} (xs : list A) (body : A -> R unit) :
  (forall x, rdisciplined p (body x)) -> rdisciplined p (rfor_each xs body).
Proof.
  intros Hb. induction xs as [|x xs IH]; simpl.
  - apply rdisciplined_ret.
  - apply rdisciplined_bind; auto.
Qed.

Lemma rdisciplined_lift p {A} (m : M A) : tidy m -> rdisciplined p (lift m).
Proof.
  intros (Ks & Dm & Kh) c D. unfold lift.
  destruct (Dm (machine c) p D) as (evs & E & F).
  specialize (Ks (machine c)). specialize (Kh (machine c)).
  destruct (m (machine c)) as [[a|e] s]; simpl in *;
    exists evs; repeat split; auto; congruence.
Qed.

(** Split a command of the front end into its steps. *)
Ltac session :=
  repeat first
    [ apply rdisciplined_bind; [ | intros ? ]
    | apply rdisciplined_ret
    | apply rdisciplined_show
    | apply rdisciplined_item
    | apply rdisciplined_py_int
    | apply rdisciplined_for_each; intros ?
    | apply rdisciplined_lift;
      first [ apply tidy_command | apply tidy_query | apply tidy_status
            | apply tidy_all_off | apply tidy_float_query
            | apply tidy_py_float ] ].

Lemma rdisciplined_execute p cmd args : rdisciplined p (execute cmd args).
Proof.
  unfold execute, print_help, print_status, int_item, float_item, print.
  repeat match goal with
         | |- rdisciplined _ (if ?b then _ else _) => destruct b
         end;
    try solve [ session ].
  destruct args; session.
Qed.

Lemma rdisciplined_loop_handler p e h :
  loop_handler e = Some h -> rdisciplined p h.
Proof.
  unfold loop_handler, print. intros L.
  destruct e as [|t|code|x].
  - injection L as <-. session.
  - simpl in L. injection L as <-. session.
  - simpl in L. discriminate.
  - destruct (is_ValueError (Lib x)); [injection L as <-; session|].
    destruct (is_Exception (Lib x)); [injection L as <-; session|].
    discriminate.
Qed.

Lemma rdisciplined_turn p ev : rdisciplined p (turn ev).
Proof.
  unfold turn, print.
  apply rdisciplined_bind; [apply rdisciplined_show | intros _].
  destruct ev as [raw| |]; [|session|session].
  destruct (strip raw) as [|c t]; [apply rdisciplined_ret|].
  cbv zeta. apply rdisciplined_bind; [apply rdisciplined_item | intros word].
  apply rdisciplined_try_except.
  - apply rdisciplined_execute.
  - apply rdisciplined_loop_handler.
Qed.

Lemma rdisciplined_loop p inputs : rdisciplined p (loop inputs).
Proof.
  induction inputs as [|ev rest IH]; simpl.
  - apply rdisciplined_bind; [apply rdisciplined_turn | intros _].
    apply rdisciplined_ret.
  - apply rdisciplined_bind; [apply rdisciplined_turn | intros k].
    destruct k; [exact IH | apply rdisciplined_ret].
Qed.

Lemma construct_is_tidy dev w cs :
  let s' := snd (construct dev w cs) in
  exists evs,
    past s' = history w ++ evs /\
    follows_protocol dev None evs = true /\
    device (self s') = Some dev /\
    open_handles s' = handles w.
Proof.
  intros s'. unfold s', construct.
  set (s0 := {| self := {| device := Some dev; idn := None |};
                sys := w; calls := cs |}).
  change (__init__ dev _) with (_verify_connection s0).
  unfold _verify_connection, bind.
  pose proof (disciplined_query (lit "*IDN?")) as Dq. unfold disciplined in Dq.
  destruct (Dq s0 dev eq_refl) as (evs & E & F).
  pose proof (self_query (lit "*IDN?") s0) as Ks.
  pose proof (handles_query (lit "*IDN?") s0) as Kh.
  exists evs.
  destruct (query (lit "*IDN?") s0) as [[i|e] s1]; simpl in *.
  - destruct (negb (contains (lit "RIGOL") i) && negb (contains (lit "DP8") i));
      simpl; rewrite ?Ks; repeat split; auto.
  - rewrite Ks. repeat split; auto.
Qed.

Lemma connection_block dev c :
  let block :=
    try_except
      (connect dev >> i <~ lift get_idn ;; print (lit "Connected: " ++ i ++ LF))
      (fun e =>
         if is_Exception e
         then Some (print (lit "Failed to connect: " ++ message e) >>
                    rraise (SystemExit 1))
         else None) in
  machine (snd (block c))
  = snd (construct dev (sys (machine c)) (calls (machine c))).
Proof.
  intros block. unfold block, try_except, rbind, connect, lift, get_idn,
    print, show, rraise.
  destruct (construct dev (sys (machine c)) (calls (machine c)))
    as [[o|e] s]; simpl.
  - destruct (idn (self s)); reflexivity.
  - destruct e; reflexivity.
Qed.

Lemma session_events argv inputs w :
  let c' := snd (main argv inputs (start w)) in
  exists evs,
    past (machine c') = history w ++ evs /\
    follows_protocol (device_of argv) None evs = true /\
    open_handles (machine c') = handles w.
Proof.
  intros c'. unfold c'. clear c'.
  set (dev := device_of argv).
  set (c0 := {| machine := machine (start w);
                screen := screen (start w)
                          ++ [Print (lit "Connecting to " ++ dev ++ lit "...")] |}).
  set (block :=
         try_except
           (connect dev >> i <~ lift get_idn ;;
            print (lit "Connected: " ++ i ++ LF))
           (fun e =>
              if is_Exception e
              then Some (print (lit "Failed to connect: " ++ message e) >>
                         rraise (SystemExit 1))
              else None)).
  assert (E : main argv inputs (start w)
              = match block c0 with
                | (Returned _, c1) =>
                    (print (lit "Type 'help' for commands, 'quit' to exit." ++ LF)
                     >> loop inputs) c1
                | (Raised e, c1) => (Raised e, c1)
                end) by reflexivity.
  rewrite E. clear E.
  pose proof (connection_block dev c0) as B. cbv zeta in B. fold block in B.
  destruct (construct_is_tidy dev (sys (machine c0)) (calls (machine c0)))
    as (e1 & E1 & F1 & D1 & H1).
  cbv zeta in E1, D1, H1. rewrite <- B in E1, D1, H1. clear B.
  destruct (block c0) as [[u|e] c1]; simpl in E1, D1, H1.
  - assert (Rest : rdisciplined dev
                     (print (lit "Type 'help' for commands, 'quit' to exit." ++ LF)
                      >> loop inputs)).
    { apply rdisciplined_bind;
        [apply rdisciplined_show | intros _; apply rdisciplined_loop]. }
    destruct (Rest c1 D1) as (e2 & E2 & F2 & D2 & H2).
    exists (e1 ++ e2). repeat split.
    + rewrite E2, E1. now rewrite app_assoc.
    + now apply follows_app.
    + now rewrite H2.
  - exists e1. simpl. now repeat split.
Qed.

Lemma skipn_exact {X} (l evs : list X) : skipn (List.length l) (l ++ evs) = evs.
Proof. induction l; simpl; auto. Qed.

(** X13. A whole run of the program, from start to whatever ends it
    (quit, end of input, a failed connection, an interrupt), keeps to the
    discipline of the device channel on the path it was started with, the
    first command-line argument or else the default path: no other file is
    opened, every write and read is on the descriptor just opened, no two
    descriptors are ever held, and when the program ends none is open that
    was not open before. *)
Theorem session_follows_the_protocol
    (argv : list str) (inputs : list in_event) (w : world) :
  let c' := snd (main argv inputs (start w)) in
  follows_protocol (device_of argv) None
    (skipn (List.length (history w)) (past (machine c'))) = true /\
  open_handles (machine c') = handles w.
Proof.
  intros c'. destruct (session_events argv inputs w) as (evs & E & F & H).
  fold c' in E, H. split; [|exact H].
  rewrite E, skipn_exact. exact F.
Qed.

(** ** The front end: words, failures and what is printed *)

Lemma is_word_cons cmd w ws :
  is_word (w :: ws) cmd = str_eqb cmd w || is_word ws cmd.
Proof. reflexivity. Qed.

(** X14. A word that is none of the nine device commands never reaches
    the device: the command prints exactly one line and leaves the client
    and the operating system as they were, whatever the arguments.  It
    ends the loop exactly when the word is [quit], [exit] or [q]. *)
Theorem other_words_leave_the_device_alone
    (cmd : str) (args : list str) (c : console) :
  is_word device_words cmd = false ->
  exists line,
    execute cmd args c
    = (Returned (if is_word leaving_words cmd then Break else Continue),
       {| machine := machine c; screen := screen c ++ [Print line] |}).
Proof.
  unfold device_words, leaving_words. cbn [map].
  rewrite !is_word_cons. intros H.
  repeat (apply orb_false_elim in H; destruct H as [? H]).
  unfold execute.
  repeat match goal with
         | E : str_eqb cmd _ = false |- _ => rewrite E; clear E
         end.
  destruct (str_eqb cmd (lit "quit")); [simpl; eexists; reflexivity|].
  destruct (str_eqb cmd (lit "exit")); [simpl; eexists; reflexivity|].
  destruct (str_eqb cmd (lit "q")); [simpl; eexists; reflexivity|].
  cbn [orb is_word existsb].
  destruct (str_eqb cmd (lit "help")); eexists; reflexivity.
Qed.

Lemma mute_ret {A} (a : A) : mute (rret a).
Proof. intros c. reflexivity. Qed.

Lemma mute_raise {A} e : mute (@rraise A e).
Proof. intros c. reflexivity. Qed.

Lemma mute_lift {A} (m : M A) : mute (lift m).
Proof. intros c. unfold lift. now destruct (m (machine c)) as [[a|e] s]. Qed.

Lemma mute_bind {A B} (m : R A) (k : A -> R B) :
  mute m -> (forall a, mute (k a)) -> mute (rbind m k).
Proof.
  intros Hm Hk c. unfold rbind. specialize (Hm c).
  destruct (m c) as [[a|e] c1]; simpl in *; [|exact Hm].
  rewrite (Hk a c1). exact Hm.
Qed.

Lemma mute_item args k : mute (item args k).
Proof. unfold item. destruct (nth_error args k); [apply mute_ret | apply mute_raise]. Qed.

Lemma mute_int_item args k : mute (int_item args k).
Proof.
  unfold int_item. apply mute_bind; [apply mute_item | intros a].
  unfold py_int. destruct (int_of_str a); [apply mute_ret | apply mute_raise].
Qed.

Lemma mute_float_item args k : mute (float_item args k).
Proof.
  unfold float_item. apply mute_bind; [apply mute_item | intros a].
  apply mute_lift.
Qed.

Lemma silent_bind {A B} (m : R A) (k : A -> R B) :
  mute m -> (forall a, silent_on_failure (k a)) ->
  silent_on_failure (rbind m k).
Proof.
  intros Hm Hk c e c'. unfold rbind. specialize (Hm c).
  destruct (m c) as [[a|e1] c1]; simpl in *.
  - intros H. rewrite (Hk a c1 e c' H). exact Hm.
  - intros H. assert (c1 = c') by congruence. subst. exact Hm.
Qed.

Lemma silent_print_ret {A} text (a : A) :
  silent_on_failure (print text >> rret a).
Proof. intros c e c'. unfold rbind, print, show, rret. discriminate. Qed.

Ltac silent :=
  repeat first
    [ apply silent_print_ret
    | apply silent_bind; [ | intros ? ]
    | apply mute_int_item
    | apply mute_float_item
    | apply mute_lift ].

Lemma execute_silent cmd args :
  str_eqb cmd (lit "status") = false -> silent_on_failure (execute cmd args).
Proof.
  intros S. unfold execute, print_help. rewrite S. cbv zeta.
  repeat match goal with
         | |- silent_on_failure (if ?b then _ else _) => destruct b
         end;
    silent.
Qed.

Lemma execute_exceptions cmd args c e c' :
  execute cmd args c = (Raised e, c') ->
  forall code, e <> SystemExit code.
Proof.
  intros H code ->.
  pose proof (@execute_does_not_exit cmd args c (SystemExit code)) as P.
  rewrite H in P. specialize (P eq_refl). discriminate.
Qed.

(** X15. What the loop does with a failed command: unless the failure is
    a [KeyboardInterrupt], the loop goes on after printing one line.  The
    line is the missing-arguments notice for an absent argument; it starts
    [Invalid value: ] for a text that is not a number and also for a
    command that cannot be encoded or a reply that cannot be decoded (the
    Unicode errors are [ValueError]s, caught before [Exception]); it
    starts [Error: ] for everything else, as a failed system call or a
    [ConnectionError]. *)
Theorem failed_command_is_reported
    (cmd : str) (args : list str) (c c' : console) (e : repl_exn) :
  execute cmd args c = (Raised e, c') ->
  e <> Lib KeyboardInterrupt ->
  try_except (execute cmd args) loop_handler c
  = (Returned Continue,
     {| machine := machine c'; screen := screen c' ++ [Print (report e)] |})
  /\ (forall x, e = Lib x ->
      x = UnicodeDecodeError \/ x = UnicodeEncodeError ->
      report e = lit "Invalid value: " ++ describe x)
  /\ (forall n, e = Lib (OSError n) ->
      report e = lit "Error: " ++ describe (OSError n)).
Proof.
  intros H NI. pose proof (execute_exceptions _ _ _ H) as NE.
  split; [|split].
  - unfold try_except. rewrite H.
    destruct e as [|t|code|x].
    + reflexivity.
    + reflexivity.
    + now elim (NE code).
    + destruct x; try reflexivity. now elim NI.
  - intros x -> [->| ->]; reflexivity.
  - intros n ->. reflexivity.
Qed.

(** X16. [status 0] is [status]: the channel [0] is false for
    [print_status], which then shows the three channels, as it does
    without an argument.  Further arguments are ignored. *)
Theorem status_zero_is_status
    (a : str) (rest : list str) (c : console) :
  int_of_str a = Some 0%Z ->
  execute (lit "status") (a :: rest) c = execute (lit "status") [] c.
Proof.
  intros H. unfold execute. cbn [str_eqb N_list_eqb lit orb].
  change (str_eqb (lit "status") (lit "quit")) with false.
  change (str_eqb (lit "status") (lit "exit")) with false.
  change (str_eqb (lit "status") (lit "q")) with false.
  change (str_eqb (lit "status") (lit "help")) with false.
  change (str_eqb (lit "status") (lit "status")) with true.
  cbv iota. cbn [orb].
  unfold int_item, item, py_int. cbn [nth_error].
  unfold rbind at 2 3. unfold rret at 1 2. rewrite H.
  reflexivity.
Qed.

(** X17. A command other than [status] prints its confirmation only when
    every device call it makes has returned: if it fails, for a missing
    or malformed argument or for a failure of the device, it has printed
    nothing, so that all the user sees is the loop's one-line report.
    ([status] prints its header before it asks the device.) *)
Theorem failed_command_has_printed_nothing
    (cmd : str) (args : list str) (c c' : console) (e : repl_exn) :
  str_eqb cmd (lit "status") = false ->
  execute cmd args c = (Raised e, c') ->
  screen c' = screen c /\
  (e <> Lib KeyboardInterrupt ->
   exists line,
     screen (snd (try_except (execute cmd args) loop_handler c))
     = screen c ++ [Print line]).
Proof.
  intros S H.
  assert (Q : screen c' = screen c)
    by (eapply execute_silent; [exact S | exact H]).
  split; [exact Q|].
  intros NI. pose proof (execute_exceptions _ _ _ H) as NE.
  exists (report e). unfold try_except. rewrite H.
  destruct e as [|t|code|x].
  - simpl. now rewrite Q.
  - simpl. now rewrite Q.
  - now elim (NE code).
  - destruct x; simpl; now rewrite Q.
Qed.

End Client.

(** ** UTF-8: what is written can be read back *)

Lemma to_N_byte_of_N n : (n <= 255)%N -> Byte.to_N (byte_of_N n) = n.
Proof.
  intros H. unfold byte_of_N.
  pose proof (Byte.to_of_N_option_map n) as E.
  destruct (Byte.of_N n) as [b|] eqn:O.
  - simpl in E. apply N.leb_le in H. rewrite H in E. now injection E.
  - apply Byte.of_N_None_iff in O. lia.
Qed.

Lemma in_range_true lo hi b : (lo <= b <= hi)%N -> in_range lo hi b = true.
Proof.
  intros [H1 H2]. unfold in_range.
  apply N.leb_le in H1. apply N.leb_le in H2. now rewrite H1, H2.
Qed.

Lemma in_range_false lo hi b : (b < lo \/ hi < b)%N -> in_range lo hi b = false.
Proof.
  intros H. unfold in_range. apply andb_false_iff.
  destruct H as [H|H]; [left|right]; now apply N.leb_gt.
Qed.

Lemma decode_1 c0 r :
  (Byte.to_N c0 < 0x80)%N ->
  decode (c0 :: r) = option_map (cons (Byte.to_N c0)) (decode r).
Proof.
  intros H. apply N.ltb_lt in H. cbn [decode]. now rewrite H.
Qed.

Lemma decode_2 c0 c1 r :
  (0xC2 <= Byte.to_N c0 <= 0xDF)%N ->
  (0x80 <= Byte.to_N c1 <= 0xBF)%N ->
  decode (c0 :: c1 :: r)
  = option_map (cons ((Byte.to_N c0 - 0xC0) * 0x40 + cont (Byte.to_N c1))%N)
               (decode r).
Proof.
  intros H0 H1. cbn [decode].
  assert (L : (Byte.to_N c0 <? 0x80)%N = false) by (apply N.ltb_ge; lia).
  rewrite L, (in_range_true H0), (in_range_true H1). reflexivity.
Qed.

Lemma decode_3 c0 c1 c2 r :
  (0xE0 <= Byte.to_N c0 <= 0xEF)%N ->
  (0x80 <= Byte.to_N c1 <= 0xBF)%N ->
  (Byte.to_N c0 = 0xE0 -> 0xA0 <= Byte.to_N c1)%N ->
  (Byte.to_N c0 = 0xED -> Byte.to_N c1 <= 0x9F)%N ->
  (0x80 <= Byte.to_N c2 <= 0xBF)%N ->
  decode (c0 :: c1 :: c2 :: r)
  = option_map (cons ((Byte.to_N c0 - 0xE0) * 0x1000
                      + cont (Byte.to_N c1) * 0x40 + cont (Byte.to_N c2))%N)
               (decode r).
Proof.
  intros H0 H1 Ha Hb H2. cbn [decode].
  assert (L : (Byte.to_N c0 <? 0x80)%N = false) by (apply N.ltb_ge; lia).
  assert (M : in_range 0xC2 0xDF (Byte.to_N c0) = false)
    by (apply in_range_false; lia).
  rewrite L, M, (in_range_true H0), (in_range_true H2).
  destruct (N.eqb_spec (Byte.to_N c0) 0xE0) as [E|E].
  - rewrite in_range_true by (split; [auto | lia]). reflexivity.
  - destruct (N.eqb_spec (Byte.to_N c0) 0xED) as [E'|E'].
    + rewrite in_range_true by (split; [lia | auto]). reflexivity.
    + rewrite (in_range_true H1). reflexivity.
Qed.

Lemma decode_4 c0 c1 c2 c3 r :
  (0xF0 <= Byte.to_N c0 <= 0xF4)%N ->
  (0x80 <= Byte.to_N c1 <= 0xBF)%N ->
  (Byte.to_N c0 = 0xF0 -> 0x90 <= Byte.to_N c1)%N ->
  (Byte.to_N c0 = 0xF4 -> Byte.to_N c1 <= 0x8F)%N ->
  (0x80 <= Byte.to_N c2 <= 0xBF)%N ->
  (0x80 <= Byte.to_N c3 <= 0xBF)%N ->
  decode (c0 :: c1 :: c2 :: c3 :: r)
  = option_map (cons ((Byte.to_N c0 - 0xF0) * 0x40000
                      + cont (Byte.to_N c1) * 0x1000
                      + cont (Byte.to_N c2) * 0x40 + cont (Byte.to_N c3))%N)
               (decode r).
Proof.
  intros H0 H1 Ha Hb H2 H3. cbn [decode].
  assert (L : (Byte.to_N c0 <? 0x80)%N = false) by (apply N.ltb_ge; lia).
  assert (M : in_range 0xC2 0xDF (Byte.to_N c0) = false)
    by (apply in_range_false; lia).
  assert (M' : in_range 0xE0 0xEF (Byte.to_N c0) = false)
    by (apply in_range_false; lia).
  rewrite L, M, M', (in_range_true H0), (in_range_true H2), (in_range_true H3).
  destruct (N.eqb_spec (Byte.to_N c0) 0xF0) as [E|E].
  - rewrite in_range_true by (split; [auto | lia]). reflexivity.
  - destruct (N.eqb_spec (Byte.to_N c0) 0xF4) as [E'|E'].
    + rewrite in_range_true by (split; [lia | auto]). reflexivity.
    + rewrite (in_range_true H1). reflexivity.
Qed.

Lemma some_inj {X} (x y : X) : Some x = Some y -> y = x.
Proof. congruence. Qed.

Ltac divmod := zify; Z.to_euclidean_division_equations; lia.

Lemma utf8_char_round_trip c b rest :
  utf8_encode_char c = Some b ->
  decode (b ++ rest) = option_map (cons c) (decode rest).
Proof.
  unfold utf8_encode_char.
  destruct (N.ltb_spec c 0x80) as [C1|C1].
  { intros H; apply some_inj in H; subst b; cbn [app].
    rewrite decode_1; rewrite to_N_byte_of_N by lia; [reflexivity | lia]. }
  destruct (N.ltb_spec c 0x800) as [C2|C2].
  { intros H; apply some_inj in H; subst b; cbn [app].
    rewrite decode_2; rewrite ?to_N_byte_of_N by divmod; try divmod.
    f_equal. f_equal. unfold cont. divmod. }
  destruct (N.ltb_spec c 0x10000) as [C3|C3].
  { destruct ((0xD800 <=? c)%N && (c <=? 0xDFFF)%N) eqn:S; [discriminate|].
    apply andb_false_iff in S.
    assert (S' : (c < 0xD800 \/ 0xDFFF < c)%N)
      by (destruct S as [S|S]; [left|right]; now apply N.leb_gt).
    intros H; apply some_inj in H; subst b; cbn [app].
    rewrite decode_3; rewrite ?to_N_byte_of_N by divmod; try divmod.
    f_equal. f_equal. unfold cont. divmod. }
  destruct (N.ltb_spec c 0x110000) as [C4|C4]; [|discriminate].
  intros H; apply some_inj in H; subst b; cbn [app].
  rewrite decode_4; rewrite ?to_N_byte_of_N by divmod; try divmod.
  f_equal. f_equal. unfold cont. divmod.
Qed.

(** X6. Text that [str.encode()] accepts is read back unchanged by
    [bytes.decode('utf-8')]: the bytes [command] and [query] write for a
    command are a well-formed UTF-8 sequence that denotes the command and
    its line feed, code point for code point (one to four bytes each, no
    surrogate, nothing above U+10FFFF). *)
Theorem encode_then_decode (t : str) (bs : bytes) :
  encode t = Some bs -> decode bs = Some t.
Proof.
  revert bs. induction t as [|c t IH]; simpl; intros bs H.
  - apply some_inj in H. now subst bs.
  - destruct (utf8_encode_char c) as [b|] eqn:C; [|discriminate].
    destruct (encode t) as [bs'|] eqn:E; [|discriminate].
    apply some_inj in H. subst bs.
    erewrite utf8_char_round_trip by exact C. now rewrite (IH bs' eq_refl).
Qed.

(** ** Concrete runs *)

Example float_accepts :
  float_of_str no_unicode_digits (lit "-12.50e-3")
  = Some (FloatDec true [1; 2]%N [5; 0]%N (-3)) /\
  float_of_str no_unicode_digits (lit "1_000.") = Some (FloatDec false [1; 0; 0; 0]%N [] 0) /\
  float_of_str no_unicode_digits (lit "-InFinity") = Some (FloatInf true).
Proof. repeat split. Qed.

Example float_rejects :
  map (float_of_str no_unicode_digits)
      [lit ""; lit "ERR"; lit "."; lit "1e"; lit "1__0"; lit "0x10"; lit "1 2"]
  = [None; None; None; None; None; None; None].
Proof. reflexivity. Qed.

Example strip_reply :
  option_map strip (decode (ascii_bytes "  ON" ++ [x0d; x0a])) = Some (lit "ON").
Proof. reflexivity. Qed.

Example decode_rejects_overlong : decode [xc0; x80] = None.
Proof. reflexivity. Qed.

(** A write that fails: the exception leaves [command], the descriptor is
    closed on the way out. *)
Example command_write_fails :
  fst (command write_protected (lit ":OUTP CH1,ON") ready) = Raise (OSError 5) /\
  past (snd (command write_protected (lit ":OUTP CH1,ON") ready))
  = [EvOpen DEFAULT_DEVICE O_RDWR (Done 3%Z);
     EvWrite 3 (ascii_bytes ":OUTP CH1,ON" ++ [x0a]) (Errno 5);
     EvClose 3 (Done tt)] /\
  open_handles (snd (command write_protected (lit ":OUTP CH1,ON") ready)) = [].
Proof. repeat split. Qed.

(** A read that is interrupted: [KeyboardInterrupt] leaves [query], the
    descriptor is closed on the way out. *)
Example query_read_interrupted :
  fst (query hung (lit "*IDN?") ready) = Raise KeyboardInterrupt /\
  past (snd (query hung (lit "*IDN?") ready))
  = [EvOpen DEFAULT_DEVICE O_RDWR (Done 3%Z);
     EvWrite 3 (ascii_bytes "*IDN?" ++ [x0a]) (Done 6%Z);
     EvSleep 100 false;
     EvRead 3 4096 Interrupted;
     EvClose 3 (Done tt)] /\
  open_handles (snd (query hung (lit "*IDN?") ready)) = [].
Proof. repeat split. Qed.

(** C1, counterexample: on the bench supply [status 1] returns a record
    after six queries, not five. *)
Lemma status_does_not_make_five_queries :
  (exists st, fst (status no_unicode_digits same bench 1 ready) = Ok st) /\
  List.length (calls (snd (status no_unicode_digits same bench 1 ready))) = 6%nat /\
  List.length (calls (snd (status no_unicode_digits same bench 1 ready))) <> 5%nat.
Proof.
  split; [eexists; vm_compute; reflexivity|].
  split; [vm_compute; reflexivity|vm_compute; discriminate].
Qed.

Lemma status_makes_six_queries_witness :
  calls (snd (status no_unicode_digits same bench 1 ready))
  = [Query (lit ":OUTP? CH1"); Query (lit ":SOUR1:VOLT?");
     Query (lit ":SOUR1:CURR?"); Query (lit ":MEAS:VOLT? CH1");
     Query (lit ":MEAS:CURR? CH1"); Query (lit ":MEAS:POWE? CH1")].
Proof.
  refine (proj1 (proj2 (status_makes_six_queries no_unicode_digits same bench 1 ready)
                   {| channel := 1; output := false;
                      voltage_set := bench_reading; current_set := bench_reading;
                      voltage := bench_reading; current := bench_reading;
                      power := bench_reading |}
                   (snd (status no_unicode_digits same bench 1 ready)) _)).
  vm_compute. reflexivity.
Defined.

(** C2, counterexample: with no device behind the file the send for
    channel 1 fails, and [all_off] has then issued one send, not three. *)
Lemma all_off_unplugged_sends_once :
  fst (all_off unplugged ready) = Raise (OSError 19) /\
  calls (snd (all_off unplugged ready)) = [off_send 1] /\
  calls (snd (all_off unplugged ready)) <> [off_send 1; off_send 2; off_send 3].
Proof.
  split; [reflexivity|]. split; [reflexivity|]. vm_compute. discriminate.
Qed.

Lemma all_off_stops_at_first_failure_witness :
  calls (snd (all_off bench ready)) = [off_send 1; off_send 2; off_send 3] /\
  all_off unplugged ready
  = (Raise (OSError 19), snd (output_off unplugged 1 ready)).
Proof.
  split.
  - exact (proj2 (proj2 (proj2 (all_off_stops_at_first_failure bench ready))
                    (snd (output_off bench 1 ready))
                    (snd (output_off bench 2 (snd (output_off bench 1 ready))))
                    eq_refl eq_refl)).
  - exact (proj1 (proj1 (all_off_stops_at_first_failure unplugged ready)
                    (OSError 19) (snd (output_off unplugged 1 ready)) eq_refl)).
Defined.

Lemma malformed_number_raises_with_text_witness :
  query garbled (lit ":SOUR1:VOLT?") ready
  = (Ok (lit "ERR"), snd (query garbled (lit ":SOUR1:VOLT?") ready)) /\
  get_voltage_setpoint no_unicode_digits same garbled 1 ready
  = (Raise (ValueError (lit "ERR")), snd (query garbled (lit ":SOUR1:VOLT?") ready)).
Proof.
  split; [reflexivity|].
  exact (proj1 (@malformed_number_raises_with_text
                  no_unicode_digits float_literal same garbled 1
                  (lit ":SOUR1:VOLT?")
                  (get_voltage_setpoint no_unicode_digits same garbled 1)
                  ready (lit "ERR")
                  (snd (query garbled (lit ":SOUR1:VOLT?") ready))
                  (or_introl eq_refl) eq_refl eq_refl)).
Defined.

Lemma construction_checks_identity_witness :
  construct stranger DEFAULT_DEVICE boot []
  = (Raise (ConnectionError (lit "Unexpected device response: ACME,PSU-1")),
     snd (query stranger (lit "*IDN?")
            {| self := {| device := Some DEFAULT_DEVICE; idn := None |};
               sys := boot; calls := [] |})) /\
  fst (construct bench DEFAULT_DEVICE boot [])
  = Ok {| device := Some DEFAULT_DEVICE; idn := Some bench_idn |}.
Proof.
  split.
  - destruct (construction_checks_identity stranger DEFAULT_DEVICE boot [])
      as (_ & H & _).
    exact (proj1 (proj2 (H (lit "ACME,PSU-1") _ eq_refl)) (conj eq_refl eq_refl)).
  - destruct (construction_checks_identity bench DEFAULT_DEVICE boot [])
      as (_ & H & _).
    rewrite (proj2 (proj2 (H bench_idn _ eq_refl)) (or_introl eq_refl)).
    reflexivity.
Defined.

Lemma query_returns_trimmed_reply_witness :
  exists s',
    query bench (lit "*IDN?") ready = (Ok (strip (bench_idn ++ LF)), s') /\
    past s' = past ready
              ++ exchange DEFAULT_DEVICE 3 (ascii_bytes "*IDN?" ++ [x0a]) 6
                   (ascii_bytes "RIGOL TECHNOLOGIES,DP832A,DP8B000000001,00.01.16"
                    ++ [x0a]) /\
    trimmed (strip (bench_idn ++ LF)) /\
    (forall t, strip (bench_idn ++ LF) <> t ++ LF).
Proof.
  apply (@query_returns_trimmed_reply bench (lit "*IDN?") ready DEFAULT_DEVICE 3
           (ascii_bytes "*IDN?" ++ [x0a]) 6
           (ascii_bytes "RIGOL TECHNOLOGIES,DP832A,DP8B000000001,00.01.16"
            ++ [x0a])
           (bench_idn ++ LF)).
  - reflexivity.
  - reflexivity.
  - vm_compute. repeat split.
  - vm_compute. reflexivity.
Defined.

Lemma get_output_is_exact_match_on_ON_witness :
  get_output bench 2 ready = (Ok true, snd (query bench (lit ":OUTP? CH2") ready)) /\
  get_output bench 1 ready = (Ok false, snd (query bench (lit ":OUTP? CH1") ready)).
Proof.
  split.
  - exact (proj1 (proj1 (get_output_is_exact_match_on_ON bench 2 ready)
                    (lit "ON") _ eq_refl)).
  - exact (proj1 (proj1 (get_output_is_exact_match_on_ON bench 1 ready)
                    (lit "OFF") _ eq_refl)).
Defined.

Lemma protection_sets_threshold_then_enables_witness :
  calls (snd (set_ovp plain_repr bench 2 five_volts ready))
  = [Send (lit ":OUTP:OVP:VAL CH2,5.0"); Send (lit ":OUTP:OVP CH2,ON")] /\
  calls (snd (set_ocp plain_repr bench 2 half_amp ready))
  = [Send (lit ":OUTP:OCP:VAL CH2,0.5"); Send (lit ":OUTP:OCP CH2,ON")].
Proof.
  split.
  - exact (proj2 (proj1 (proj1 (protection_sets_threshold_then_enables
                                  plain_repr bench 2 five_volts ready))
                    _ eq_refl)).
  - exact (proj2 (proj1 (proj2 (protection_sets_threshold_then_enables
                                  plain_repr bench 2 half_amp ready))
                    _ eq_refl)).
Defined.

Lemma configure_sends_voltage_current_then_optional_on_witness :
  let s1 := snd (set_voltage plain_repr bench 1 five_volts ready) in
  let s2 := snd (set_current plain_repr bench 1 half_amp s1) in
  (configure plain_repr bench 1 five_volts half_amp false ready = (Ok tt, s2) /\
   calls s2 = [Send (lit ":SOUR1:VOLT 5.0"); Send (lit ":SOUR1:CURR 0.5")]) /\
  calls (snd (configure plain_repr bench 1 five_volts half_amp true ready))
  = [Send (lit ":SOUR1:VOLT 5.0"); Send (lit ":SOUR1:CURR 0.5");
     Send (lit ":OUTP CH1,ON")].
Proof.
  intros s1 s2.
  assert (E1 : set_voltage plain_repr bench 1 five_volts ready = (Ok tt, s1))
    by (vm_compute; reflexivity).
  assert (E2 : set_current plain_repr bench 1 half_amp s1 = (Ok tt, s2))
    by (vm_compute; reflexivity).
  destruct (proj1 (configure_sends_voltage_current_then_optional_on
                     plain_repr bench 1 five_volts half_amp ready)
              s1 s2 E1 E2) as [H [_ C']].
  split; [exact H | exact C'].
Defined.

(** ** Concrete runs of the further properties *)

Lemma close_failure_replaces_the_outcome_witness :
  events_since ready (snd (query close_fails (lit "*IDN?") ready))
  = [EvOpen DEFAULT_DEVICE O_RDWR (Done 3%Z);
     EvWrite 3 (ascii_bytes "*IDN?" ++ [x0a]) (Done 6%Z);
     EvSleep 100 false;
     EvRead 3 4096
       (Done (ascii_bytes "RIGOL TECHNOLOGIES,DP832A,DP8B000000001,00.01.16"
              ++ [x0a]))]
    ++ [EvClose 3 (Errno 5)] /\
  fst (query close_fails (lit "*IDN?") ready) = Raise (OSError 5).
Proof.
  assert (H : events_since ready (snd (query close_fails (lit "*IDN?") ready))
              = [EvOpen DEFAULT_DEVICE O_RDWR (Done 3%Z);
                 EvWrite 3 (ascii_bytes "*IDN?" ++ [x0a]) (Done 6%Z);
                 EvSleep 100 false;
                 EvRead 3 4096
                   (Done (ascii_bytes
                            "RIGOL TECHNOLOGIES,DP832A,DP8B000000001,00.01.16"
                          ++ [x0a]))]
                ++ [EvClose 3 (Errno 5)])
    by (vm_compute; reflexivity).
  split; [exact H|].
  exact (proj2 (@close_failure_replaces_the_outcome close_fails (lit "*IDN?")
                  ready _ 3%Z (Errno 5) (OSError 5) eq_refl) H).
Defined.

Lemma failed_open_is_the_only_call_witness :
  (fst (command unplugged (lit ":OUTP CH1,ON") ready) = Raise (OSError 19) /\
   events_since ready (snd (command unplugged (lit ":OUTP CH1,ON") ready))
   = [EvOpen DEFAULT_DEVICE O_RDWR (Errno 19)]) /\
  (fst (query unplugged (lit ":OUTP CH1,ON") ready) = Raise (OSError 19) /\
   events_since ready (snd (query unplugged (lit ":OUTP CH1,ON") ready))
   = [EvOpen DEFAULT_DEVICE O_RDWR (Errno 19)]).
Proof.
  exact (@failed_open_is_the_only_call unplugged (lit ":OUTP CH1,ON") ready
           DEFAULT_DEVICE (Errno 19) (OSError 19) eq_refl eq_refl eq_refl).
Defined.

Lemma command_makes_one_write_witness :
  exists s',
    command bench (lit ":OUTP CH1,ON") ready = (Ok tt, s') /\
    past s' = past ready
              ++ send_exchange DEFAULT_DEVICE 3
                   (ascii_bytes ":OUTP CH1,ON" ++ [x0a]) 13 /\
    calls s' = calls ready ++ [Send (lit ":OUTP CH1,ON")] /\
    self s' = self ready /\
    open_handles s' = open_handles ready.
Proof.
  apply (@command_makes_one_write bench (lit ":OUTP CH1,ON") ready
           DEFAULT_DEVICE 3%Z (ascii_bytes ":OUTP CH1,ON" ++ [x0a]) 13%Z).
  - reflexivity.
  - reflexivity.
  - vm_compute. repeat split.
Defined.

Lemma every_operation_follows_the_protocol_witness :
  follows_protocol DEFAULT_DEVICE None
    (events_since ready
       (snd (call_method no_unicode_digits same plain_repr quoted bench
               (Mstatus float_literal 1) ready))) = true /\
  open_handles
    (snd (call_method no_unicode_digits same plain_repr quoted bench
            (Mstatus float_literal 1) ready))
  = open_handles ready.
Proof.
  exact (@every_operation_follows_the_protocol no_unicode_digits float_literal
           same plain_repr quoted bench (Mstatus float_literal 1) ready
           DEFAULT_DEVICE eq_refl).
Defined.

Lemma encode_then_decode_witness :
  decode [x2a; x49; x44; x4e; x3f; xe2; x82; xac; xf0; x9f; x98; x80; x0a]
  = Some (lit "*IDN?" ++ [0x20AC; 0x1F600]%N ++ LF).
Proof.
  apply (@encode_then_decode (lit "*IDN?" ++ [0x20AC; 0x1F600]%N ++ LF)).
  vm_compute. reflexivity.
Defined.

Lemma query_result_is_always_trimmed_witness :
  trimmed bench_idn /\ strip bench_idn = bench_idn /\
  (forall t, bench_idn <> t ++ LF).
Proof.
  apply (@query_result_is_always_trimmed bench (lit "*IDN?") ready bench_idn).
  vm_compute. reflexivity.
Defined.

Lemma only_an_interrupt_ends_the_loop_witness :
  let c := {| machine := ready; screen := [] |} in
  let out :=
    fst (turn no_unicode_digits same plain_repr quoted hung ascii_int
           ascii_lower plain_fixed terse (Line (lit "measure 1")) c) in
  out = Raised control (Lib KeyboardInterrupt) /\
  Lib KeyboardInterrupt = Lib KeyboardInterrupt.
Proof.
  intros c out.
  assert (H : out = Raised control (Lib KeyboardInterrupt)) by (vm_compute; reflexivity).
  split; [exact H|].
  exact (proj1 (@only_an_interrupt_ends_the_loop no_unicode_digits float_literal
                  same plain_repr quoted hung ascii_int ascii_lower plain_fixed
                  terse [] [] (Line (lit "measure 1")) c
                  (Lib KeyboardInterrupt)) H).
Defined.

Lemma raw_passes_the_line_through_witness :
  let c := {| machine := ready; screen := [] |} in
  execute no_unicode_digits same plain_repr bench ascii_int plain_fixed
    (lit "raw") [lit ":OUTP?"; lit "CH2"] c
  = (Returned Continue,
     {| machine := snd (query bench (lit ":OUTP? CH2") ready);
        screen := [Print (lit "< ON")] |}).
Proof.
  intros c.
  refine (proj1 (proj2 (@raw_passes_the_line_through no_unicode_digits
                          float_literal same plain_repr bench ascii_int
                          plain_fixed [lit ":OUTP?"; lit "CH2"] c))
            (lit "ON") (snd (query bench (lit ":OUTP? CH2") ready)) _).
  vm_compute. reflexivity.
Defined.


Lemma failed_connection_ends_the_program_witness :
  main no_unicode_digits same plain_repr quoted stranger ascii_int ascii_lower
    plain_fixed terse [lit "repl.py"; lit "/dev/usbtmc0"]
    [Line (lit "status")] (start boot)
  = (Raised (list in_event) (SystemExit 1),
     {| machine := snd (construct stranger (lit "/dev/usbtmc0") boot []);
        screen := [Print (lit "Connecting to /dev/usbtmc0...");
                   Print (lit "Failed to connect: Unexpected device response: ACME,PSU-1")] |}).
Proof.
  refine (proj1 (@failed_connection_ends_the_program no_unicode_digits
                   float_literal same plain_repr quoted stranger ascii_int
                   ascii_lower plain_fixed terse
                   [lit "repl.py"; lit "/dev/usbtmc0"] [Line (lit "status")]
                   boot
                   (ConnectionError (lit "Unexpected device response: ACME,PSU-1"))
                   (snd (construct stranger (lit "/dev/usbtmc0") boot []))
                   _ _)).
  - vm_compute. reflexivity.
  - discriminate.
Defined.


Lemma other_words_leave_the_device_alone_witness :
  let c := {| machine := ready; screen := [] |} in
  (exists line,
     execute no_unicode_digits same plain_repr unplugged ascii_int plain_fixed
       (lit "exit") [lit "1"] c
     = (Returned Break,
        {| machine := ready; screen := [] ++ [Print line] |})) /\
  (exists line,
     execute no_unicode_digits same plain_repr unplugged ascii_int plain_fixed
       (lit "reset") [lit "1"] c
     = (Returned Continue,
        {| machine := ready; screen := [] ++ [Print line] |})).
Proof.
  intros c. split.
  - apply (@other_words_leave_the_device_alone no_unicode_digits float_literal
             same plain_repr unplugged ascii_int plain_fixed
             (lit "exit") [lit "1"] c).
    vm_compute. reflexivity.
  - apply (@other_words_leave_the_device_alone no_unicode_digits float_literal
             same plain_repr unplugged ascii_int plain_fixed
             (lit "reset") [lit "1"] c).
    vm_compute. reflexivity.
Defined.

Lemma failed_command_is_reported_witness :
  let c := {| machine := ready; screen := [] |} in
  try_except
    (execute no_unicode_digits same plain_repr noisy ascii_int plain_fixed
       (lit "raw") [lit "*IDN?"])
    (loop_handler quoted terse) c
  = (Returned Continue,
     {| machine := snd (query noisy (lit "*IDN?") ready);
        screen := [] ++ [Print (lit "Invalid value: error")] |}).
Proof.
  intros c.
  refine (proj1 (@failed_command_is_reported no_unicode_digits float_literal
                   same plain_repr quoted noisy ascii_int plain_fixed terse
                   (lit "raw") [lit "*IDN?"] c
                   {| machine := snd (query noisy (lit "*IDN?") ready);
                      screen := [] |}
                   (Lib UnicodeDecodeError) _ _)).
  - vm_compute. reflexivity.
  - discriminate.
Defined.

Lemma status_zero_is_status_witness :
  let c := {| machine := ready; screen := [] |} in
  execute no_unicode_digits same plain_repr bench ascii_int plain_fixed
    (lit "status") [lit "0"; lit "2"] c
  = execute no_unicode_digits same plain_repr bench ascii_int plain_fixed
      (lit "status") [] c.
Proof.
  intros c.
  apply (@status_zero_is_status no_unicode_digits float_literal same plain_repr
           bench ascii_int plain_fixed (lit "0") [lit "2"] c).
  vm_compute. reflexivity.
Defined.

Lemma failed_command_has_printed_nothing_witness :
  let c := {| machine := ready; screen := [Print (lit "CH1 ON")] |} in
  let c' := {| machine := snd (command write_protected (lit ":OUTP CH2,ON") ready);
               screen := [Print (lit "CH1 ON")] |} in
  screen c' = screen c /\
  exists line,
    screen (snd (try_except
                   (execute no_unicode_digits same plain_repr write_protected
                      ascii_int plain_fixed (lit "on") [lit "2"])
                   (loop_handler quoted terse) c))
    = screen c ++ [Print line].
Proof.
  intros c c'.
  assert (H : screen c' = screen c /\
              (Lib (OSError 5) <> Lib KeyboardInterrupt ->
               exists line,
                 screen (snd (try_except
                   (execute no_unicode_digits same plain_repr write_protected
                      ascii_int plain_fixed (lit "on") [lit "2"])
                   (loop_handler quoted terse) c))
                 = screen c ++ [Print line])).
  { apply (@failed_command_has_printed_nothing no_unicode_digits float_literal
             same plain_repr quoted write_protected ascii_int plain_fixed terse
             (lit "on") [lit "2"] c c' (Lib (OSError 5))).
    - vm_compute. reflexivity.
    - vm_compute. reflexivity. }
  split; [exact (proj1 H)|].
  apply (proj2 H). discriminate.
Defined.

(** A session on the bench supply: what the terminal shows and what the
    device is asked, and the unread input that is left after [quit]. *)
Example a_session :
  let r := main no_unicode_digits same plain_repr quoted bench ascii_int
             ascii_lower plain_fixed terse [lit "repl.py"]
             [Line (lit " SET 1 5.0 0.5 "); Line (lit "set 1"); Line (lit "status 0");
              Line (lit "raw :OUTP?   CH2"); Line (lit "quit"); Line (lit "on 1")]
             (start boot) in
  fst r = Returned [Line (lit "on 1")] /\
  calls (machine (snd r))
  = [Query (lit "*IDN?"); Send (lit ":SOUR1:VOLT 5.0"); Send (lit ":SOUR1:CURR 0.5")]
    ++ status_queries 1 ++ status_queries 2 ++ status_queries 3
    ++ [Query (lit ":OUTP? CH2")] /\
  nth_error (screen (snd r)) 4 = Some (Print (lit "CH1: 5.0V, 0.5A")) /\
  nth_error (screen (snd r)) 6
  = Some (Print (lit "Missing arguments. Type 'help' for usage.")) /\
  last (screen (snd r)) (Prompt []) = Print (lit "Bye!").
Proof. vm_compute. repeat split. Qed.
